(** * TransformerDocs: the OCR extraction pipeline and the format encoders

    A shallow embedding of [ocr_processor.py], [file_converter.py] and the
    extraction guard of [main.py], with the properties of the pipeline
    proved over it.

    Python [str] values are sequences of Unicode code points; they are
    modelled as lists of code points so that the whitespace and line-break
    classes of [str.strip], [str.split] and [str.splitlines] are the ones
    CPython uses, including those past Latin-1. *)

From Stdlib Require Import String Ascii DecimalString DecimalNat DecimalFacts.
From Stdlib Require Import List NArith ZArith Arith Lia Bool Sorted.
From stdpp Require Import gmap.
Import ListNotations.

Local Open Scope N_scope.
Local Open Scope nat_scope.
Local Open Scope list_scope.

(** ** Strings *)

Definition char : Type := N.
Definition str : Type := list char.

Definition LF : char := 10%N.
Definition CR : char := 13%N.
Definition TAB : char := 9%N.
Definition DQUOTE : char := 34%N.
Definition COMMA : char := 44%N.

(** The code points of a Rocq string, byte by byte. *)
Definition code_points (s : String.string) : str :=
  List.map Ascii.N_of_ascii (String.list_ascii_of_string s).
Arguments code_points s%_string.

(** Python's reading of the escapes of a string literal: a backslash
    (code 92) followed by n, r, t or a backslash stands for LF, CR, TAB
    or one backslash. *)
Fixpoint unescape (l : str) : str :=
  match l with
  | [] => []
  | c :: l' =>
      if (c =? 92)%N then
        match l' with
        | d :: l'' =>
            if (d =? 110)%N then LF :: unescape l''
            else if (d =? 114)%N then CR :: unescape l''
            else if (d =? 116)%N then TAB :: unescape l''
            else if (d =? 92)%N then d :: unescape l''
            else c :: unescape l'
        | [] => [c]
        end
      else c :: unescape l'
  end.

(** A string literal of the source, read as its code points. *)
Definition lit (s : String.string) : str := unescape (code_points s).
Arguments lit s%_string.

Fixpoint str_eqb (a b : str) : bool :=
  match a, b with
  | [], [] => true
  | x :: a', y :: b' => N.eqb x y && str_eqb a' b'
  | _, _ => false
  end.

(** Truthiness of a [str]: the empty string is false. *)
Definition truthy (s : str) : bool :=
  match s with [] => false | _ :: _ => true end.

(** [s.startswith(p)]. *)
Fixpoint startswith (p s : str) : bool :=
  match p, s with
  | [], _ => true
  | x :: p', y :: s' => N.eqb x y && startswith p' s'
  | _ :: _, [] => false
  end.

(** [sub in s]. *)
Fixpoint contains (sub s : str) : bool :=
  startswith sub s ||
  match s with
  | [] => false
  | _ :: s' => contains sub s'
  end.

(** Put a character in front of the first piece of a piece list. *)
Definition add_first (c : char) (pieces : list str) : list str :=
  match pieces with
  | [] => [[c]]
  | p :: ps => (c :: p) :: ps
  end.

(** [s.replace(old, new)]: occurrences are found left to right and do not
    overlap.  [skip] counts the characters of a matched occurrence that are
    still to be passed over. *)
Fixpoint replace_from (old new : str) (skip : nat) (s : str) : str :=
  match s with
  | [] => []
  | c :: s' =>
      match skip with
      | S k => replace_from old new k s'
      | O =>
          if startswith old s
          then new ++ replace_from old new (length old - 1) s'
          else c :: replace_from old new 0 s'
      end
  end.

Definition replace (old new s : str) : str :=
  match old with
  | [] => new ++ flat_map (fun c => c :: new) s
  | _ :: _ => replace_from old new 0 s
  end.

(** [s.split(sep)] for a non-empty separator (every call site of the
    source passes a literal; Python raises ValueError on an empty one). *)
Fixpoint split_from (sep : str) (skip : nat) (s : str) : list str :=
  match s with
  | [] => [[]]
  | c :: s' =>
      match skip with
      | S k => split_from sep k s'
      | O =>
          if startswith sep s
          then [] :: split_from sep (length sep - 1) s'
          else add_first c (split_from sep 0 s')
      end
  end.

Definition split (sep s : str) : list str := split_from sep 0 s.

(** [s.count(sub)]: non-overlapping occurrences. *)
Fixpoint count_from (sub : str) (skip : nat) (s : str) : nat :=
  match s with
  | [] => 0
  | c :: s' =>
      match skip with
      | S k => count_from sub k s'
      | O =>
          if startswith sub s
          then S (count_from sub (length sub - 1) s')
          else count_from sub 0 s'
      end
  end.

Definition count (sub s : str) : nat :=
  match sub with
  | [] => S (length s)
  | _ :: _ => count_from sub 0 s
  end.

(** [sep.join(pieces)]. *)
Fixpoint join (sep : str) (pieces : list str) : str :=
  match pieces with
  | [] => []
  | [p] => p
  | p :: ps => p ++ sep ++ join sep ps
  end.

(** The code points for which [str.isspace] holds: the class that
    [str.strip()] and [str.split()] without argument work with. *)
Definition isspace (c : char) : bool :=
  ((9 <=? c) && (c <=? 13))%N || ((28 <=? c) && (c <=? 32))%N ||
  (c =? 133)%N || (c =? 160)%N || (c =? 5760)%N ||
  ((8192 <=? c) && (c <=? 8202))%N || (c =? 8232)%N || (c =? 8233)%N ||
  (c =? 8239)%N || (c =? 8287)%N || (c =? 12288)%N.

Fixpoint lstrip (s : str) : str :=
  match s with
  | [] => []
  | c :: s' => if isspace c then lstrip s' else s
  end.

Definition rstrip (s : str) : str := rev (lstrip (rev s)).

(** [s.strip()]. *)
Definition strip (s : str) : str := rstrip (lstrip s).

(** [s.split()]: the maximal runs of non-whitespace. *)
Fixpoint split_ws (s : str) : list str :=
  match s with
  | [] => []
  | c :: s' =>
      if isspace c then split_ws s'
      else
        match s' with
        | [] => [[c]]
        | d :: _ => if isspace d then [c] :: split_ws s'
                    else add_first c (split_ws s')
        end
  end.

(** The line boundaries of [str.splitlines]. *)
Definition is_linebreak (c : char) : bool :=
  ((10 <=? c) && (c <=? 13))%N || ((28 <=? c) && (c <=? 30))%N ||
  (c =? 133)%N || (c =? 8232)%N || (c =? 8233)%N.

(** [s.splitlines()]: CR LF is one boundary, and a final boundary opens no
    further line. *)
Fixpoint splitlines (s : str) : list str :=
  match s with
  | [] => []
  | c :: s' =>
      if is_linebreak c then
        match s' with
        | d :: s'' =>
            if (c =? CR)%N && (d =? LF)%N
            then [] :: splitlines s''
            else [] :: splitlines s'
        | [] => [[]]
        end
      else add_first c (splitlines s')
  end.

(** The character class of the pattern [[.!?]+]. *)
Definition is_terminator (c : char) : bool :=
  (c =? 46)%N || (c =? 33)%N || (c =? 63)%N.

(** [re.split(r'[.!?]+', s)]: the pieces between the maximal runs of
    terminators; a run at either end leaves an empty piece there.
    [in_run] records that the previous character was a terminator. *)
Fixpoint re_split_from (in_run : bool) (s : str) : list str :=
  match s with
  | [] => [[]]
  | c :: s' =>
      if is_terminator c
      then (if in_run then re_split_from true s'
            else [] :: re_split_from true s')
      else add_first c (re_split_from false s')
  end.

Definition re_split_terminators (s : str) : list str := re_split_from false s.

(** [str(n)] for a non-negative integer. *)
Definition str_of_nat (n : nat) : str :=
  code_points (DecimalString.NilEmpty.string_of_uint (Nat.to_uint n)).

(** ** Outcomes of a call *)

Inductive exn : Type :=
| ValueError (msg : str)
| HTTPException (status_code : nat) (detail : str)
| FileNotFoundError
| InternalFault (tag : nat).

(** A call returns, raises, or is cut off by the iteration bound of a
    modelled [while] loop. *)
Inductive outcome (A : Type) : Type :=
| Ok (a : A)
| Raise (e : exn)
| OutOfFuel.
Arguments Ok {A} a.
Arguments Raise {A} e.
Arguments OutOfFuel {A}.

Definition bind {A B : Type} (m : outcome A) (k : A -> outcome B) : outcome B :=
  match m with
  | Ok a => k a
  | Raise e => Raise e
  | OutOfFuel => OutOfFuel
  end.

Declare Scope outcome_scope.
Delimit Scope outcome_scope with outcome.
Notation "'let*' x ':=' m 'in' k" := (bind m (fun x => k))
  (at level 10, x name, m at level 100, k at level 200) : outcome_scope.
Local Open Scope outcome_scope.

(** ** ocr_processor.py *)

Module OCRProcessor.

(** The body of the [for line in lines] loop of [_clean_text], with the
    list it appends to. *)
Fixpoint clean_lines (lines cleaned_lines : list str) : list str :=
  match lines with
  | [] => cleaned_lines
  | line :: rest =>
      let line := strip line in
      if truthy line
      then clean_lines rest (cleaned_lines ++ [line])
      else clean_lines rest cleaned_lines
  end.

(** The [while '\n\n\n' in cleaned_text] loop; [fuel] bounds its
    iterations. *)
Fixpoint collapse_newlines (fuel : nat) (cleaned_text : str) : outcome str :=
  match fuel with
  | O => OutOfFuel
  | S fuel' =>
      if contains (lit "\n\n\n") cleaned_text
      then collapse_newlines fuel'
             (replace (lit "\n\n\n") (lit "\n\n") cleaned_text)
      else Ok cleaned_text
  end.

(** [_clean_text].  Each iteration of the loop shortens the text, so its
    length bounds the number of iterations. *)
Definition _clean_text (text : str) : outcome str :=
  if negb (truthy text) then Ok []
  else
    let lines := split (lit "\n") text in
    let cleaned_lines := clean_lines lines [] in
    let cleaned_text := join (lit "\n") cleaned_lines in
    collapse_newlines (S (length cleaned_text)) cleaned_text.

(** A page image is represented by the raw string that
    [pytesseract.image_to_string] returns for it. *)
Abbreviation PageImage := str.

(** [_run_tesseract_ocr]. *)
Definition _run_tesseract_ocr (image : PageImage) : outcome str :=
  let text := image in
  _clean_text text.

(** [_extract_text_from_image]: the executor hands the call through. *)
Definition _extract_text_from_image (image : PageImage) : outcome str :=
  _run_tesseract_ocr image.

(** The text block of page [n]: [f"--- Page {n} ---\n{page_text}"]. *)
Definition page_block (n : nat) (page_text : str) : str :=
  lit "--- Page " ++ str_of_nat n ++ lit " ---\n" ++ page_text.

(** The [for i, image in enumerate(images)] loop of [_process_pdf]. *)
Fixpoint process_pages (i : nat) (images : list PageImage)
    (extracted_texts : list str) : outcome (list str) :=
  match images with
  | [] => Ok extracted_texts
  | image :: rest =>
      let* page_text := _extract_text_from_image image in
      if truthy (strip page_text)
      then process_pages (S i) rest
             (extracted_texts ++ [page_block (i + 1) page_text])
      else process_pages (S i) rest extracted_texts
  end.

(** [_process_pdf], from the page images that [convert_from_path] yields. *)
Definition _process_pdf (images : list PageImage) : outcome str :=
  match images with
  | [] => Raise (ValueError (lit "No pages found in PDF"))
  | _ :: _ =>
      let* extracted_texts := process_pages 0 images [] in
      Ok (join (lit "\n\n") extracted_texts)
  end.

(** [_process_image], from the image that [Image.open] yields. *)
Definition _process_image (image : PageImage) : outcome str :=
  _extract_text_from_image image.

(** A source file: the lower-cased suffix of its path and what the two
    readers of the source would load from it. *)
Record SourceDocument : Type := {
  file_extension : str;
  pdf_images : list PageImage;
  image : PageImage
}.

Definition image_extensions : list str :=
  [lit ".png"; lit ".jpg"; lit ".jpeg"; lit ".tiff"; lit ".bmp"].

(** [process_file]. *)
Definition process_file (doc : SourceDocument) : outcome str :=
  if str_eqb (file_extension doc) (lit ".pdf")
  then _process_pdf (pdf_images doc)
  else if existsb (str_eqb (file_extension doc)) image_extensions
  then _process_image (image doc)
  else Raise (ValueError (lit "Unsupported file type: " ++ file_extension doc)).

(** [get_supported_formats]. *)
Definition get_supported_formats : list str :=
  [lit ".pdf"; lit ".png"; lit ".jpg"; lit ".jpeg"; lit ".tiff"; lit ".bmp"].

End OCRProcessor.

(** ** main.py: the extraction stage of upload_file *)

Module Main.

Definition allowed_extensions : list str :=
  [lit ".pdf"; lit ".png"; lit ".jpg"; lit ".jpeg"; lit ".tiff"; lit ".bmp"].

Definition no_text_detail : str :=
  lit "No text could be extracted from the document. Please ensure the document contains readable text.".

(** [str(e)] of a raised exception. *)
Definition exn_message (e : exn) : str :=
  match e with
  | ValueError msg => msg
  | HTTPException _ detail => detail
  | FileNotFoundError => lit "No such file or directory"
  | InternalFault _ => lit "internal fault"
  end.

Definition allowed_formats : list str := [lit "json"; lit "csv"; lit "txt"].

(** [upload_file] down to the guard on the extracted text (lines 49-86)
    under its two [except] clauses: an [HTTPException] passes through, any
    other exception becomes a 500.  The details of the first two 400s go on
    to list what is allowed (for the file types in the order of a [set],
    which is not fixed); the lists are left out. *)
Definition upload_file_extract (doc : OCRProcessor.SourceDocument)
    (output_format : str) : outcome str :=
  let file_extension := OCRProcessor.file_extension doc in
  if negb (existsb (str_eqb file_extension) allowed_extensions)
  then Raise (HTTPException 400
                (lit "File type " ++ file_extension ++ lit " not supported"))
  else if negb (existsb (str_eqb output_format) allowed_formats)
  then Raise (HTTPException 400
                (lit "Output format " ++ output_format ++ lit " not supported"))
  else
    match OCRProcessor.process_file doc with
    | Ok extracted_text =>
        if negb (truthy (strip extracted_text))
        then Raise (HTTPException 400 no_text_detail)
        else Ok extracted_text
    | Raise (HTTPException c d) => Raise (HTTPException c d)
    | Raise e =>
        Raise (HTTPException 500 (lit "Error processing file: " ++ exn_message e))
    | OutOfFuel => OutOfFuel
    end.

End Main.

(** ** file_converter.py *)

(** The dictionary that [_parse_text_to_structured_data] returns; its four
    keys are always present. *)
Record StructuredData : Type := {
  paragraphs : list str;
  sentences : list str;
  words : list str;
  page_count : nat
}.

(** *** Faults inside the structurer

    [_parse_text_to_structured_data] runs under [try ... except Exception].
    Every string or regex call of its body may raise; which call does, and
    with what, is fixed by a schedule over the running call count.  The
    local variable [text] is state that the handler reads after a fault. *)

Definition schedule : Type := nat -> option exn.

Definition no_faults : schedule := fun _ => None.

Record frame : Type := {
  text_var : str;
  calls : nat
}.

Definition M (A : Type) : Type := frame -> outcome A * frame.

Definition ret {A : Type} (a : A) : M A := fun fr => (Ok a, fr).

Definition bindM {A B : Type} (m : M A) (k : A -> M B) : M B :=
  fun fr =>
    match m fr with
    | (Ok a, fr') => k a fr'
    | (Raise e, fr') => (Raise e, fr')
    | (OutOfFuel, fr') => (OutOfFuel, fr')
    end.

Notation "x <- m ;; k" := (bindM m (fun x => k))
  (at level 100, m at next level, right associativity).
Notation "m ;;; k" := (bindM m (fun _ => k))
  (at level 100, right associativity).

Definition get_text : M str := fun fr => (Ok (text_var fr), fr).

Definition set_text (t : str) : M unit :=
  fun fr => (Ok tt, {| text_var := t; calls := calls fr |}).

(** [try: body except Exception: handler]; the handler starts from the
    frame the fault left. *)
Definition try_except {A : Type} (body : M A) (handler : exn -> M A) : M A :=
  fun fr =>
    match body fr with
    | (Raise e, fr') => handler e fr'
    | r => r
    end.

Section Structurer.

Variable faults : schedule.

(** One library call: it raises if the schedule says so, and otherwise
    returns its value. *)
Definition call {A : Type} (v : A) : M A :=
  fun fr =>
    let fr' := {| text_var := text_var fr; calls := S (calls fr) |} in
    match faults (calls fr) with
    | Some e => (Raise e, fr')
    | None => (Ok v, fr')
    end.

(** [[p.strip() for p in pieces if p.strip()]]: the filter and the element
    expression each call [strip]. *)
Fixpoint strip_truthy (pieces : list str) : M (list str) :=
  match pieces with
  | [] => ret []
  | p :: rest =>
      c <- call (strip p) ;;
      if truthy c
      then v <- call (strip p) ;;
           vs <- strip_truthy rest ;;
           ret (v :: vs)
      else strip_truthy rest
  end.

(** The [for paragraph in paragraphs] loop. *)
Fixpoint split_sentences (paragraphs sentences : list str) : M (list str) :=
  match paragraphs with
  | [] => ret sentences
  | paragraph :: rest =>
      para_sentences <- call (re_split_terminators paragraph) ;;
      kept <- strip_truthy para_sentences ;;
      split_sentences rest (sentences ++ kept)
  end.

(** Lines 290-293: the [if]/[elif] that rebinds [text]. *)
Definition normalize_newlines : M unit :=
  text <- get_text ;;
  has_crlf <- call (contains (lit "\r\n") text) ;;
  if has_crlf
  then t <- call (replace (lit "\r\n") (lit "\n") text) ;; set_text t
  else
    has_cr <- call (contains (lit "\r") text) ;;
    if has_cr
    then t <- call (replace (lit "\r") (lit "\n") text) ;; set_text t
    else ret tt.

(** The body of the [try]. *)
Definition parse_body : M StructuredData :=
  normalize_newlines ;;;
  text <- get_text ;;
  blocks <- call (split (lit "\n\n") text) ;;
  paragraphs <- strip_truthy blocks ;;
  sentences <- split_sentences paragraphs [] ;;
  words <- call (split_ws text) ;;
  has_marker <- call (contains (lit "--- Page") text) ;;
  page_count <- (if has_marker
                 then n <- call (count (lit "--- Page") text) ;; ret (n + 1)
                 else ret 1) ;;
  ret {| paragraphs := paragraphs; sentences := sentences;
         words := words; page_count := page_count |}.

(** The [except] clause. *)
Definition parse_fallback : M StructuredData :=
  text <- get_text ;;
  words <- call (split_ws text) ;;
  ret {| paragraphs := [text]; sentences := [text];
         words := words; page_count := 1 |}.

(** [_parse_text_to_structured_data]. *)
Definition _parse_text_to_structured_data (text : str) : outcome StructuredData :=
  fst (try_except parse_body (fun _ => parse_fallback)
         {| text_var := text; calls := 0 |}).

End Structurer.

(** *** Paths and files

    A path is the list of its components ([[]] is [Path('.')], whose name
    is empty); a file system maps paths to the code points that decoding a
    file's bytes as UTF-8 gives.  Directories are not tracked:
    [mkdir(parents=True, exist_ok=True)] leaves every file as it is. *)

Definition Path : Type := list str.

Abbreviation FileSystem := (gmap (list (list N)) (list N)).

(** [PurePath.name]. *)
Definition path_name (p : Path) : str := List.last p [].

(** [s.rfind(c)], scanning from index [i] with the last hit so far. *)
Fixpoint rfind_from (c : char) (i : nat) (s : str) (found : option nat) : option nat :=
  match s with
  | [] => found
  | x :: s' => rfind_from c (S i) s' (if (x =? c)%N then Some i else found)
  end.

(** [PurePath.suffix]: from the last dot of the name, unless that dot
    begins or ends the name. *)
Definition path_suffix (p : Path) : str :=
  let name := path_name p in
  match rfind_from 46%N 0 name None with
  | Some i => if (0 <? i) && (i <? length name - 1) then skipn i name else []
  | None => []
  end.

(** [PurePath.with_suffix(suffix)] for a well-formed [suffix]. *)
Definition with_suffix (p : Path) (suffix : str) : outcome Path :=
  let name := path_name p in
  if negb (truthy name)
  then Raise (ValueError (lit "path has an empty name"))
  else
    let old_suffix := path_suffix p in
    let name :=
      if negb (truthy old_suffix) then name ++ suffix
      else firstn (length name - length old_suffix) name ++ suffix in
    Ok (removelast p ++ [name]).

(** What a text-mode file opened for writing with the default [newline]
    stores: each LF as the host's [os.linesep]. *)
Definition text_write (linesep : str) (text : str) : str :=
  flat_map (fun c => if (c =? LF)%N then linesep else [c]) text.

(** What a text-mode file opened for reading with the default [newline]
    returns: CR LF and CR both read as LF. *)
Fixpoint text_read (data : str) : str :=
  match data with
  | [] => []
  | c :: data' =>
      if (c =? CR)%N then
        LF :: match data' with
              | d :: data'' =>
                  if (d =? LF)%N then text_read data'' else text_read data'
              | [] => []
              end
      else c :: text_read data'
  end.

(** The byte-order mark that the [utf-8-sig] codec writes first. *)
Definition BOM : char := 65279%N.

(** [output_path.stat().st_size == 0]: no code point encodes to zero bytes. *)
Definition st_size_is_zero (data : str) : bool := negb (truthy data).

(** *** The line-oriented CSV encoder *)

Inductive cell : Type :=
| CellInt (n : nat)
| CellStr (s : str).

(** [str(cell)]. *)
Definition str_of_cell (c : cell) : str :=
  match c with
  | CellInt n => str_of_nat n
  | CellStr s => s
  end.

(** [for idx, line in enumerate(lines, 1): csv_data.append([idx, line])]. *)
Fixpoint append_line_rows (idx : nat) (lines : list str)
    (csv_data : list (list cell)) : list (list cell) :=
  match lines with
  | [] => csv_data
  | line :: rest =>
      append_line_rows (S idx) rest (csv_data ++ [[CellInt idx; CellStr line]])
  end.

(** The rows that [_convert_to_csv_sync] builds (lines 203-209). *)
Definition line_csv_data (text : str) : list (list cell) :=
  let lines := splitlines text in
  let csv_data := [[CellStr (lit "Line Number"); CellStr (lit "Line Text")]] in
  let csv_data := append_line_rows 1 lines csv_data in
  if length lines =? 0
  then csv_data ++ [[CellInt 1; CellStr text]]
  else csv_data.

(** One field under [QUOTE_ALL] with the excel dialect. *)
Definition quote_field (c : cell) : str :=
  [DQUOTE] ++ replace [DQUOTE] [DQUOTE; DQUOTE] (str_of_cell c) ++ [DQUOTE].

(** [writer.writerows(csv_data)] with [lineterminator='\r\n']. *)
Definition writerows (csv_data : list (list cell)) : str :=
  flat_map (fun row => join (lit ",") (List.map quote_field row) ++ lit "\r\n")
    csv_data.

(** The string that the rewrite path of lines 227-230 concatenates. *)
Fixpoint csv_string_rows (csv_data : list (list cell)) (csv_string : str) : str :=
  match csv_data with
  | [] => csv_string
  | row :: rest =>
      let escaped_cells :=
        List.map (fun c => replace [DQUOTE] [DQUOTE; DQUOTE] (str_of_cell c)) row in
      csv_string_rows rest
        (csv_string ++ [DQUOTE] ++ join [DQUOTE; COMMA; DQUOTE] escaped_cells
           ++ [DQUOTE] ++ lit "\r\n")
  end.

(** [_convert_to_csv_sync]: both writes open the file with [newline=''],
    so nothing is translated, and with [utf-8-sig]. *)
Definition _convert_to_csv_sync (text : str) (output_path : Path)
    (fs : FileSystem) : outcome FileSystem :=
  let csv_data := line_csv_data text in
  let fs := <[output_path := BOM :: writerows csv_data]> fs in
  let fs :=
    match fs !! output_path with
    | Some data =>
        if st_size_is_zero data
        then <[output_path := BOM :: csv_string_rows csv_data []]> fs
        else fs
    | None => fs
    end in
  Ok fs.

(** [_write_raw_txt]. *)
Definition _write_raw_txt (linesep : str) (text : str) (output_path : Path)
    (fs : FileSystem) : outcome FileSystem :=
  Ok (<[output_path := text_write linesep text]> fs).

(** *** The TXT encoder *)

(** [_format_text_for_txt], the body of its [try]; its [except] clause
    would return the text as it is. *)
Definition _format_text_for_txt (text : str) : str :=
  let formatted_text := repeat 61%N 50 ++ lit "\n" in
  let formatted_text := formatted_text ++ lit "EXTRACTED DOCUMENT TEXT\n" in
  let formatted_text := formatted_text ++ repeat 61%N 50 ++ lit "\n\n" in
  let words := split_ws text in
  let paragraphs :=
    List.map strip
      (List.filter (fun p => truthy (strip p)) (split (lit "\n\n") text)) in
  let formatted_text := formatted_text ++ lit "Document Statistics:\n" in
  let formatted_text :=
    formatted_text ++ lit "- Total Words: " ++ str_of_nat (length words) ++ lit "\n" in
  let formatted_text :=
    formatted_text ++ lit "- Total Paragraphs: "
      ++ str_of_nat (length paragraphs) ++ lit "\n" in
  let formatted_text :=
    formatted_text ++ lit "- Total Characters: "
      ++ str_of_nat (length text) ++ lit "\n\n" in
  let formatted_text := formatted_text ++ repeat 45%N 50 ++ lit "\n" in
  let formatted_text := formatted_text ++ lit "DOCUMENT CONTENT\n" in
  let formatted_text := formatted_text ++ repeat 45%N 50 ++ lit "\n\n" in
  let formatted_text := formatted_text ++ text in
  let formatted_text := formatted_text ++ lit "\n\n" ++ repeat 61%N 50 ++ lit "\n" in
  let formatted_text := formatted_text ++ lit "End of Document\n" in
  let formatted_text := formatted_text ++ repeat 61%N 50 ++ lit "\n" in
  formatted_text.

(** [_convert_to_txt]. *)
Definition _convert_to_txt (linesep : str) (text : str) (output_path : Path)
    (fs : FileSystem) : outcome FileSystem :=
  let formatted_text := _format_text_for_txt text in
  Ok (<[output_path := text_write linesep formatted_text]> fs).

(** *** JSON values, [json.dumps] and [json.loads]

    The values that the encoder builds and the decoder returns.  A [dict]
    keeps its keys in insertion order, so an object is the ordered list of
    its members.  Floats, [NaN] and the infinities are outside the model:
    the encoder of the source never receives one, and the decoder below
    rejects a text that holds one. *)

#[warnings="-register-all"]
Inductive json : Type :=
| JNull
| JBool (b : bool)
| JInt (n : Z)
| JStr (s : str)
| JArr (items : list json)
| JObj (members : list (str * json)).

(** [str(n)] for an integer. *)
Definition str_of_Z (n : Z) : str :=
  if (n <? 0)%Z then 45%N :: str_of_nat (Z.abs_nat n)
  else str_of_nat (Z.abs_nat n).

(** A hexadecimal digit, lower case, as [format(n, 'x')] writes it. *)
Definition hex_digit (n : N) : char :=
  if (n <? 10)%N then (48 + n)%N else (87 + n)%N.

(** The replacement of one character by [encode_basestring]: the quote,
    the backslash and the control characters are escaped, everything else
    is kept ([ensure_ascii=False]). *)
Definition escape_char (c : char) : str :=
  if (c =? 34)%N then [92; 34]%N
  else if (c =? 92)%N then [92; 92]%N
  else if (c =? 10)%N then [92; 110]%N
  else if (c =? 13)%N then [92; 114]%N
  else if (c =? 9)%N then [92; 116]%N
  else if (c =? 8)%N then [92; 98]%N
  else if (c =? 12)%N then [92; 102]%N
  else if (c <? 32)%N
       then [92; 117; 48; 48; hex_digit (c / 16); hex_digit (c mod 16)]%N
  else [c].

Definition encode_basestring (s : str) : str :=
  [DQUOTE] ++ flat_map escape_char s ++ [DQUOTE].

(** The line break and indentation that [indent=2] puts before an item at
    nesting depth [level]. *)
Definition newline_indent (level : nat) : str :=
  LF :: repeat 32%N (2 * level).

(** [json.dumps(v, indent=2, ensure_ascii=False)] at nesting depth
    [level]: items are separated by a comma and a fresh line, a key from
    its value by a colon and a space, and an empty container is written
    closed. *)
Fixpoint dumps_at (level : nat) (v : json) : str :=
  match v with
  | JNull => lit "null"
  | JBool true => lit "true"
  | JBool false => lit "false"
  | JInt n => str_of_Z n
  | JStr s => encode_basestring s
  | JArr [] => lit "[]"
  | JArr items =>
      lit "[" ++ newline_indent (S level)
        ++ join (COMMA :: newline_indent (S level))
             (List.map (dumps_at (S level)) items)
        ++ newline_indent level ++ lit "]"
  | JObj [] => lit "{}"
  | JObj members =>
      lit "{" ++ newline_indent (S level)
        ++ join (COMMA :: newline_indent (S level))
             (List.map
                (fun kv =>
                   match kv with
                   | (k, x) => encode_basestring k ++ lit ": " ++ dumps_at (S level) x
                   end)
                members)
        ++ newline_indent level ++ lit "}"
  end.

Definition dumps (v : json) : str := dumps_at 0 v.








Definition is_digit (c : char) : bool := ((48 <=? c) && (c <=? 57))%N.







Section Decoder.

(** The decoder of one value, as the loops over items and members call it. *)
Variable scan_once : str -> option (json * str).



End Decoder.





(** *** The JSON encoder and the dispatcher *)

Definition json_strings (l : list str) : json := JArr (List.map JStr l).

(** The dictionary [json_data] of [_convert_to_json]. *)
Definition json_data (text : str) (structured_data : StructuredData) : json :=
  JObj
    [ (lit "document_info",
       JObj [ (lit "total_pages", JInt (Z.of_nat (page_count structured_data)));
              (lit "total_paragraphs",
               JInt (Z.of_nat (length (paragraphs structured_data))));
              (lit "total_words", JInt (Z.of_nat (length (split_ws text))));
              (lit "total_characters", JInt (Z.of_nat (length text))) ]);
      (lit "content",
       JObj [ (lit "full_text", JStr text);
              (lit "paragraphs", json_strings (paragraphs structured_data));
              (lit "sentences", json_strings (sentences structured_data));
              (lit "words", json_strings (words structured_data)) ]);
      (lit "metadata",
       JObj [ (lit "extraction_method", JStr (lit "OCR"));
              (lit "format", JStr (lit "json")) ]) ].

(** [_convert_to_json]. *)
Definition _convert_to_json (faults : schedule) (linesep : str) (text : str)
    (output_path : Path) (fs : FileSystem) : outcome FileSystem :=
  let* structured_data := _parse_text_to_structured_data faults text in
  let json_data := json_data text structured_data in
  Ok (<[output_path := text_write linesep (dumps json_data)]> fs).

(** [convert_to_format]. *)
Definition convert_to_format (faults : schedule) (linesep : str) (text : str)
    (output_path : Path) (format_type : str) (fs : FileSystem)
    : outcome FileSystem :=
  if str_eqb format_type (lit "json")
  then _convert_to_json faults linesep text output_path fs
  else if str_eqb format_type (lit "csv") then
    let* txt_path := with_suffix output_path (lit ".txt") in
    let* fs := _write_raw_txt linesep text txt_path fs in
    match fs !! txt_path with
    | Some data =>
        let txt_content := text_read data in
        _convert_to_csv_sync txt_content output_path fs
    | None => Raise FileNotFoundError
    end
  else if str_eqb format_type (lit "txt")
  then _convert_to_txt linesep text output_path fs
  else Raise (ValueError (lit "Unsupported output format: " ++ format_type)).

(** ** The structurer when no call faults *)

(** The value of [text] after lines 290-293. *)
Definition normalized_text (text : str) : str :=
  if contains (lit "\r\n") text then replace (lit "\r\n") (lit "\n") text
  else if contains (lit "\r") text then replace (lit "\r") (lit "\n") text
  else text.

(** The pieces that survive trimming, trimmed, in order. *)
Definition kept_stripped (pieces : list str) : list str :=
  List.filter truthy (List.map strip pieces).

(** The dictionary returned at line 311. *)
Definition structured (text : str) : StructuredData :=
  let text := normalized_text text in
  let paragraphs := kept_stripped (split (lit "\n\n") text) in
  {| paragraphs := paragraphs;
     sentences :=
       flat_map (fun p => kept_stripped (re_split_terminators p)) paragraphs;
     words := split_ws text;
     page_count :=
       if contains (lit "--- Page") text
       then count (lit "--- Page") text + 1 else 1 |}.


(** ** The wording of the specification *)

(** [pieces] is [s] cut at the successive leftmost occurrences of [sep]:
    no piece but the last reaches into an occurrence before the one that
    ends it, and the last piece holds none. *)
Inductive splits_on (sep : str) : str -> list str -> Prop :=
| splits_on_last (p : str) :
    contains sep p = false -> splits_on sep p [p]
| splits_on_cut (p rest : str) (pieces : list str) :
    contains sep (p ++ removelast sep) = false ->
    splits_on sep rest pieces ->
    splits_on sep (p ++ sep ++ rest) (p :: pieces).

(** Line endings as the specification normalizes them: every CR LF, then
    every CR that is left, becomes one LF. *)
Definition spec_normalized_text (text : str) : str :=
  replace [CR] [LF] (replace [CR; LF] [LF] text).

Definition head_is_terminator (s : str) : bool :=
  match s with
  | c :: _ => is_terminator c
  | [] => false
  end.

(** [pieces] is [s] cut at its maximal runs of sentence terminators. *)
Inductive splits_on_runs : str -> list str -> Prop :=
| splits_on_runs_last (p : str) :
    forallb (fun c => negb (is_terminator c)) p = true ->
    splits_on_runs p [p]
| splits_on_runs_cut (p run rest : str) (pieces : list str) :
    forallb (fun c => negb (is_terminator c)) p = true ->
    run <> [] ->
    forallb is_terminator run = true ->
    head_is_terminator rest = false ->
    splits_on_runs rest pieces ->
    splits_on_runs (p ++ run ++ rest) (p :: pieces).

(** Paragraphs as the specification words them: the blocks between blank
    lines, trimmed, without those that trimming empties. *)
Definition spec_paragraphs (text : str) (paras : list str) : Prop :=
  exists blocks,
    splits_on [LF; LF] text blocks /\ paras = kept_stripped blocks.

(** Sentences as the specification words them: paragraph by paragraph, the
    pieces between runs of terminators, trimmed, without the empty ones,
    in one flat sequence. *)
Inductive spec_sentences : list str -> list str -> Prop :=
| spec_sentences_nil : spec_sentences [] []
| spec_sentences_cons (p : str) (paras pieces sents : list str) :
    splits_on_runs p pieces ->
    spec_sentences paras sents ->
    spec_sentences (p :: paras) (kept_stripped pieces ++ sents).

(** A run of three or more newlines collapsed to two: a newline that two
    more follow is dropped. *)
Fixpoint squeeze_newlines (s : str) : str :=
  match s with
  | [] => []
  | c :: s' =>
      if (c =? LF)%N && startswith [LF; LF] s'
      then squeeze_newlines s'
      else c :: squeeze_newlines s'
  end.

(** The normalization of the extractor as the specification words it. *)
Definition spec_clean_text (raw : str) (cleaned : str) : Prop :=
  exists lines,
    splits_on [LF] raw lines /\
    cleaned = squeeze_newlines (join [LF] (kept_stripped lines)).

(** The normalized text of a page, as a function. *)
Definition cleaned (raw : str) : str :=
  join [LF] (kept_stripped (split [LF] raw)).

(** The pages that are not blank, each with its 1-based index in the
    document and its normalized text. *)
Definition nonblank_pages (images : list OCRProcessor.PageImage) : list (nat * str) :=
  List.filter (fun it => truthy (strip (snd it)))
    (combine (seq 1 (length images)) (List.map cleaned images)).


(** A non-empty text without a newline at either end and without two
    newlines in a row; [prev] tells whether a newline came just before. *)
Fixpoint tight_from (prev : bool) (s : str) : bool :=
  match s with
  | [] => negb prev
  | c :: s' =>
      if (c =? LF)%N then negb prev && tight_from true s'
      else tight_from false s'
  end.

Definition tight (s : str) : bool := tight_from true s.


(** What the extractor keeps of a line: something, trimmed, on one line. *)
Definition clean_line (l : str) : Prop :=
  l <> [] /\ strip l = l /\ ~ In LF l.

(** The text blocks of indexed pages. *)
Definition page_blocks (pages : list (nat * str)) : list str :=
  List.map (fun it => OCRProcessor.page_block (fst it) (snd it)) pages.

(** The pages of a source document, for the extensions that
    [process_file] accepts. *)
Definition document_pages (doc : OCRProcessor.SourceDocument)
    : option (list OCRProcessor.PageImage) :=
  if str_eqb (OCRProcessor.file_extension doc) (lit ".pdf")
  then Some (OCRProcessor.pdf_images doc)
  else if existsb (str_eqb (OCRProcessor.file_extension doc))
            OCRProcessor.image_extensions
  then Some [OCRProcessor.image doc]
  else None.

(** ** Definitions that the proofs use *)

(** [m], started with [text] bound to [t], leaves the binding alone and
    either returns [v] or raises what the schedule holds for one of its own
    calls, the last one made. *)
Definition computes (faults : schedule) (t : str) {A : Type} (m : M A) (v : A)
    : Prop :=
  forall fr, text_var fr = t ->
    exists fr', text_var fr' = t /\
      (m fr = (Ok v, fr') \/
       exists e, m fr = (Raise e, fr') /\ calls fr' <> 0 /\
                 faults (calls fr' - 1) = Some e).


(** A PDF of two pages without text. *)
Definition blank_pdf : OCRProcessor.SourceDocument :=
  {| OCRProcessor.file_extension := lit ".pdf";
     OCRProcessor.pdf_images := [lit " \n"; []];
     OCRProcessor.image := [] |}.






(** ** file_converter.py: the formats and the structure-oriented CSV *)

(** [FileConverter.get_supported_formats]. *)
Definition get_supported_formats : list str :=
  [lit "json"; lit "csv"; lit "txt"].

(** [for i, item in enumerate(items, 1): csv_data.append([f"{label}{i}", item])],
    the loop of [_convert_to_csv] over the paragraphs and over the
    sentences. *)
Fixpoint append_labelled_rows (label : str) (i : nat) (items : list str)
    (csv_data : list (list cell)) : list (list cell) :=
  match items with
  | [] => csv_data
  | item :: rest =>
      append_labelled_rows label (S i) rest
        (csv_data ++ [[CellStr (label ++ str_of_nat i); CellStr item]])
  end.

(** The rows that [_convert_to_csv] builds (lines 114-139). *)
Definition structured_csv_data (text : str) (structured_data : StructuredData)
    : list (list cell) :=
  let csv_data := [] in
  let csv_data := csv_data ++ [[CellStr (lit "Document Summary"); CellStr []]] in
  let csv_data :=
    csv_data ++ [[CellStr (lit "Total Pages");
                  CellInt (page_count structured_data)]] in
  let csv_data :=
    csv_data ++ [[CellStr (lit "Total Paragraphs");
                  CellInt (length (paragraphs structured_data))]] in
  let csv_data :=
    csv_data ++ [[CellStr (lit "Total Words"); CellInt (length (split_ws text))]] in
  let csv_data :=
    csv_data ++ [[CellStr (lit "Total Characters"); CellInt (length text)]] in
  let csv_data := csv_data ++ [[CellStr []; CellStr []]] in
  let csv_data := csv_data ++ [[CellStr (lit "Paragraphs"); CellStr []]] in
  let csv_data :=
    append_labelled_rows (lit "Paragraph ") 1 (paragraphs structured_data)
      csv_data in
  let csv_data := csv_data ++ [[CellStr []; CellStr []]] in
  let csv_data := csv_data ++ [[CellStr (lit "Sentences"); CellStr []]] in
  let csv_data :=
    append_labelled_rows (lit "Sentence ") 1 (sentences structured_data)
      csv_data in
  let csv_data := csv_data ++ [[CellStr []; CellStr []]] in
  let csv_data := csv_data ++ [[CellStr (lit "Full Text"); CellStr []]] in
  let csv_data := csv_data ++ [[CellStr (lit "Content"); CellStr text]] in
  csv_data.

(** [_convert_to_csv].  The writer block runs under its own [try]; whether
    it raises is [writer_fails].  Its handler writes the rows as one string
    to a file opened without [newline=''], so that write translates line
    feeds as every text-mode write does. *)
Definition _convert_to_csv (faults : schedule) (writer_fails : bool)
    (linesep : str) (text : str) (output_path : Path) (fs : FileSystem)
    : outcome FileSystem :=
  let* structured_data := _parse_text_to_structured_data faults text in
  let csv_data := structured_csv_data text structured_data in
  if writer_fails
  then
    let csv_string := csv_string_rows csv_data [] in
    Ok (<[output_path := BOM :: text_write linesep csv_string]> fs)
  else Ok (<[output_path := BOM :: writerows csv_data]> fs).

(** ** main.py: the endpoints *)

Module Endpoints.

Definition UPLOAD_DIR : Path := [lit "uploads"].
Definition OUTPUT_DIR : Path := [lit "outputs"].

(** The dictionary that [upload_file] returns. *)
Record Response : Type := {
  message : str;
  file_id : str;
  output_format : str;
  download_url : str
}.

(** The conversion stage of [upload_file] (lines 88-105): a CSV is built
    from the TXT rendering of the text, written first and read back. *)
Definition upload_file_convert (faults : schedule) (linesep : str)
    (extracted_text : str) (file_id : str) (output_format : str)
    (fs : FileSystem) : outcome FileSystem :=
  let output_filename := file_id ++ lit "." ++ output_format in
  let output_path := OUTPUT_DIR ++ [output_filename] in
  if str_eqb output_format (lit "csv") then
    let txt_path := OUTPUT_DIR ++ [file_id ++ lit ".txt"] in
    let* fs := _convert_to_txt linesep extracted_text txt_path fs in
    match fs !! txt_path with
    | Some data =>
        let txt_content := text_read data in
        _convert_to_csv_sync txt_content output_path fs
    | None => Raise FileNotFoundError
    end
  else convert_to_format faults linesep extracted_text output_path output_format fs.

(** [upload_file].  [doc] is the upload as the extractor sees it, [content]
    its bytes, [file_id] the fresh UUID.  The file system is returned with
    the outcome, since what was written before an exception stays written.
    The details of the first two 400s are abbreviated as in
    [Main.upload_file_extract]. *)
Definition upload_file (faults : schedule) (linesep : str)
    (doc : OCRProcessor.SourceDocument) (content : str) (output_format : str)
    (file_id : str) (fs : FileSystem) : outcome Response * FileSystem :=
  let file_extension := OCRProcessor.file_extension doc in
  if negb (existsb (str_eqb file_extension) Main.allowed_extensions)
  then (Raise (HTTPException 400
                 (lit "File type " ++ file_extension ++ lit " not supported")), fs)
  else if negb (existsb (str_eqb output_format) Main.allowed_formats)
  then (Raise (HTTPException 400
                 (lit "Output format " ++ output_format ++ lit " not supported")), fs)
  else
    let input_filename := file_id ++ file_extension in
    let input_path := UPLOAD_DIR ++ [input_filename] in
    let fs := <[input_path := content]> fs in
    match OCRProcessor.process_file doc with
    | Ok extracted_text =>
        if negb (truthy (strip extracted_text))
        then (Raise (HTTPException 400 Main.no_text_detail), fs)
        else
          let output_filename := file_id ++ lit "." ++ output_format in
          match upload_file_convert faults linesep extracted_text file_id
                  output_format fs with
          | Ok fs =>
              let fs := delete input_path fs in
              (Ok {| message := lit "File processed successfully";
                     file_id := file_id;
                     output_format := output_format;
                     download_url := lit "/download/" ++ output_filename |}, fs)
          | Raise (HTTPException c d) => (Raise (HTTPException c d), fs)
          | Raise e =>
              (Raise (HTTPException 500
                        (lit "Error processing file: " ++ Main.exn_message e)), fs)
          | OutOfFuel => (OutOfFuel, fs)
          end
    | Raise (HTTPException c d) => (Raise (HTTPException c d), fs)
    | Raise e =>
        (Raise (HTTPException 500
                  (lit "Error processing file: " ++ Main.exn_message e)), fs)
    | OutOfFuel => (OutOfFuel, fs)
    end.

(** [download_file]: the stored file, or a 404. *)
Definition download_file (filename : str) (fs : FileSystem) : outcome str :=
  let file_path := OUTPUT_DIR ++ [filename] in
  match fs !! file_path with
  | Some data => Ok data
  | None => Raise (HTTPException 404 (lit "File not found"))
  end.

End Endpoints.

(** ** More definitions that the proofs use *)

(** The characters of a text that are not whitespace, in order. *)
Definition visible (s : str) : str :=
  List.filter (fun c => negb (isspace c)) s.

(** A text that begins inside a word. *)
Definition starts_word (s : str) : bool :=
  match s with
  | c :: _ => negb (isspace c)
  | [] => false
  end.

(** A text without a sentence terminator. *)
Definition no_terminator (s : str) : bool :=
  forallb (fun c => negb (is_terminator c)) s.

(** A text without a line boundary of [splitlines]. *)
Definition no_linebreak (s : str) : bool :=
  forallb (fun c => negb (is_linebreak c)) s.

(** What the structurer keeps of a block: something, trimmed. *)
Definition trimmed (p : str) : Prop := p <> [] /\ strip p = p.

(** Lines numbered from [start], as rows of the line-oriented CSV. *)
Definition numbered_rows (start : nat) (lines : list str) : list (list cell) :=
  List.map (fun it => [CellInt (fst it); CellStr (snd it)])
    (combine (seq start (length lines)) lines).

(** Items numbered from [start] under a label, as rows of the
    structure-oriented CSV. *)
Definition labelled_rows (label : str) (start : nat) (items : list str)
    : list (list cell) :=
  List.map (fun it => [CellStr (label ++ str_of_nat (fst it)); CellStr (snd it)])
    (combine (seq start (length items)) items).

(** The lines that [_format_text_for_txt] puts before the text, for the
    three counts that it reports. *)
Definition txt_header_lines (total_words total_paragraphs total_characters : nat)
    : list str :=
  [ repeat 61%N 50; lit "EXTRACTED DOCUMENT TEXT"; repeat 61%N 50; [];
    lit "Document Statistics:";
    lit "- Total Words: " ++ str_of_nat total_words;
    lit "- Total Paragraphs: " ++ str_of_nat total_paragraphs;
    lit "- Total Characters: " ++ str_of_nat total_characters;
    []; repeat 45%N 50; lit "DOCUMENT CONTENT"; repeat 45%N 50; [] ].

(** What [_format_text_for_txt] puts after the text. *)
Definition txt_footer : str :=
  lit "\n\n" ++ repeat 61%N 50 ++ lit "\nEnd of Document\n" ++ repeat 61%N 50
    ++ lit "\n".

(** Lines, each closed by a newline. *)
Definition unlines (lines : list str) : str :=
  concat (List.map (fun l => l ++ [LF]) lines).

(** A PDF of three pages, the second without text. *)
Definition sample_pdf : OCRProcessor.SourceDocument :=
  {| OCRProcessor.file_extension := lit ".pdf";
     OCRProcessor.pdf_images := [lit "first page"; lit " \n"; lit "third"];
     OCRProcessor.image := [] |}.

(** * Facts about the string primitives *)

Example split_keeps_empty_pieces :
  split (lit "\n") (lit "a\n\nb\n") = [lit "a"; []; lit "b"; []].
Proof. vm_compute. reflexivity. Qed.

Example replace_is_leftmost_non_overlapping :
  replace (lit "\n\n\n") (lit "\n\n") (lit "\n\n\n\n\n\n\nx")
  = lit "\n\n\n\n\nx".
Proof. vm_compute. reflexivity. Qed.

Example splitlines_mixed_boundaries :
  splitlines (lit "a\r\nb\r\rc\n") = [lit "a"; lit "b"; []; lit "c"].
Proof. vm_compute. reflexivity. Qed.

Example re_split_trailing_run :
  re_split_terminators (lit "Hello world. Foo bar!")
  = [lit "Hello world"; lit " Foo bar"; []].
Proof. vm_compute. reflexivity. Qed.

Lemma lit_lf : lit "\n" = [LF].
Proof. reflexivity. Qed.

Lemma lit_lf2 : lit "\n\n" = [LF; LF].
Proof. reflexivity. Qed.

Lemma lit_lf3 : lit "\n\n\n" = [LF; LF; LF].
Proof. reflexivity. Qed.

Lemma str_eqb_eq (a b : str) : str_eqb a b = true <-> a = b.
Proof.
  revert b; induction a as [|x a IH]; intros [|y b]; simpl; split;
    try congruence; try reflexivity.
  - intros H. apply andb_true_iff in H as [Hx Hab].
    apply N.eqb_eq in Hx. apply IH in Hab. congruence.
  - intros H. injection H as -> ->. rewrite N.eqb_refl. simpl. now apply IH.
Qed.

Lemma str_eqb_refl (a : str) : str_eqb a a = true.
Proof. now apply str_eqb_eq. Qed.

Lemma truthy_false (s : str) : truthy s = false <-> s = [].
Proof. destruct s; simpl; split; congruence. Qed.

Lemma truthy_true (s : str) : truthy s = true <-> s <> [].
Proof. destruct s; simpl; split; congruence. Qed.

Lemma startswith_app (p r : str) : startswith p (p ++ r) = true.
Proof. induction p as [|x p IH]; simpl; [reflexivity|]. now rewrite N.eqb_refl. Qed.

Lemma startswith_inv (p s : str) :
  startswith p s = true -> s = p ++ skipn (length p) s.
Proof.
  revert s; induction p as [|x p IH]; intros [|y s]; simpl; try congruence.
  intros H. apply andb_true_iff in H as [Hx Hp].
  apply N.eqb_eq in Hx. subst y. f_equal. now apply IH.
Qed.

Lemma startswith_short (p s : str) :
  length s < length p -> startswith p s = false.
Proof.
  revert s; induction p as [|x p IH]; intros [|y s]; simpl; try lia; try reflexivity.
  intros H. rewrite IH by lia. apply andb_false_r.
Qed.

(** Only the first [length p] characters matter to [startswith p]. *)
Lemma startswith_app_long (p a b : str) :
  length p <= length a -> startswith p (a ++ b) = startswith p a.
Proof.
  revert a; induction p as [|x p IH]; intros [|y a]; simpl; try lia; try reflexivity.
  intros H. rewrite IH by lia. reflexivity.
Qed.

Lemma startswith_app_true (p a b : str) :
  startswith p a = true -> startswith p (a ++ b) = true.
Proof.
  revert a; induction p as [|x p IH]; intros [|y a]; simpl; try congruence.
  intros H. apply andb_true_iff in H as [-> Hp]. simpl. now apply IH.
Qed.

Lemma contains_short (sub s : str) :
  length s < length sub -> contains sub s = false.
Proof.
  induction s as [|c s IH]; intros H.
  - simpl. rewrite startswith_short by exact H. reflexivity.
  - cbn [contains]. rewrite startswith_short by exact H.
    simpl in H. rewrite IH by lia. reflexivity.
Qed.

Lemma contains_cons (sub : str) (c : char) (s : str) :
  contains sub (c :: s) = startswith sub (c :: s) || contains sub s.
Proof. reflexivity. Qed.

Lemma contains_app_true (sub a b : str) :
  contains sub a = true -> contains sub (a ++ b) = true.
Proof.
  induction a as [|c a IH]; intros H.
  - simpl in H. rewrite orb_false_r in H.
    destruct sub; [|discriminate]. destruct b; reflexivity.
  - rewrite contains_cons in H. simpl app. rewrite contains_cons.
    apply orb_true_iff in H as [H|H].
    + change (c :: a ++ b) with ((c :: a) ++ b).
      rewrite startswith_app_true by exact H. reflexivity.
    + rewrite IH by exact H. apply orb_true_r.
Qed.

Lemma contains_app_false (sub a b : str) :
  contains sub (a ++ b) = false -> contains sub a = false.
Proof.
  intros H. destruct (contains sub a) eqn:E; [|reflexivity].
  rewrite contains_app_true in H by exact E. discriminate.
Qed.

(** The characters of a matched occurrence are passed over. *)
Lemma split_from_skip (sep p r : str) :
  split_from sep (length p) (p ++ r) = split_from sep 0 r.
Proof.
  induction p as [|c p IH]; [reflexivity|]. simpl. exact IH.
Qed.

Lemma replace_from_skip (old new p r : str) :
  replace_from old new (length p) (p ++ r) = replace_from old new 0 r.
Proof.
  induction p as [|c p IH]; [reflexivity|]. simpl. exact IH.
Qed.

Lemma count_from_skip (sub p r : str) :
  count_from sub (length p) (p ++ r) = count_from sub 0 r.
Proof.
  induction p as [|c p IH]; [reflexivity|]. simpl. exact IH.
Qed.

Lemma split_nil (sep : str) : split sep [] = [[]].
Proof. reflexivity. Qed.

(** At an occurrence of the separator a piece ends. *)
Lemma split_at_sep (sep r : str) :
  sep <> [] -> split sep (sep ++ r) = [] :: split sep r.
Proof.
  intros Hsep. destruct sep as [|x sep]; [congruence|].
  unfold split. cbn [app split_from].
  change (x :: sep ++ r) with ((x :: sep) ++ r).
  rewrite startswith_app.
  replace (length (x :: sep) - 1) with (length sep) by (simpl; lia).
  f_equal. apply split_from_skip.
Qed.

Lemma split_no_match (sep : str) (c : char) (s : str) :
  startswith sep (c :: s) = false ->
  split sep (c :: s) = add_first c (split sep s).
Proof. unfold split. cbn [split_from]. now intros ->. Qed.

Lemma replace_at_old (old new r : str) :
  old <> [] -> replace old new (old ++ r) = new ++ replace old new r.
Proof.
  intros Hold. destruct old as [|x old]; [congruence|].
  unfold replace. cbn [app replace_from].
  change (x :: old ++ r) with ((x :: old) ++ r).
  rewrite startswith_app.
  replace (length (x :: old) - 1) with (length old) by (simpl; lia).
  f_equal. apply replace_from_skip.
Qed.

Lemma replace_no_match (old new : str) (c : char) (s : str) :
  old <> [] -> startswith old (c :: s) = false ->
  replace old new (c :: s) = c :: replace old new s.
Proof.
  intros Hold H. destruct old as [|x old]; [congruence|].
  unfold replace. cbn [replace_from]. now rewrite H.
Qed.

Lemma replace_nil (old new : str) : old <> [] -> replace old new [] = [].
Proof. destruct old; [congruence|reflexivity]. Qed.

(** A text without the separator is one piece. *)
Lemma split_absent (sep s : str) :
  sep <> [] -> contains sep s = false -> split sep s = [s].
Proof.
  intros Hsep. induction s as [|c s IH]; intros H; [reflexivity|].
  rewrite contains_cons in H. apply orb_false_iff in H as [Hs Hc].
  rewrite split_no_match by exact Hs. rewrite IH by exact Hc. reflexivity.
Qed.

Lemma removelast_length {A : Type} (l : list A) :
  length (removelast l) = length l - 1.
Proof.
  induction l as [|x l IH]; [reflexivity|].
  destruct l as [|y l]; [reflexivity|].
  change (removelast (x :: y :: l)) with (x :: removelast (y :: l)).
  cbn [length] in *. lia.
Qed.

(** The piece before the leftmost occurrence of the separator. *)
Lemma split_app_sep (sep p rest : str) :
  sep <> [] ->
  contains sep (p ++ removelast sep) = false ->
  split sep (p ++ sep ++ rest) = p :: split sep rest.
Proof.
  intros Hsep. induction p as [|c p IH]; intros H.
  - simpl. now apply split_at_sep.
  - simpl app in *. rewrite contains_cons in H.
    apply orb_false_iff in H as [Hs Hc].
    rewrite split_no_match.
    + rewrite IH by exact Hc. reflexivity.
    + rewrite <- Hs.
      replace (c :: p ++ sep ++ rest)
        with ((c :: p ++ removelast sep) ++ [List.last sep 0%N] ++ rest).
      * apply startswith_app_long. cbn [length].
        rewrite length_app, removelast_length. lia.
      * simpl. f_equal. rewrite <- app_assoc. f_equal.
        rewrite (app_removelast_last 0%N Hsep) at 3.
        rewrite <- app_assoc. reflexivity.
Qed.

(** [split] cuts at the successive leftmost occurrences. *)
Lemma split_cases (sep s : str) :
  sep <> [] ->
  (contains sep s = false /\ split sep s = [s]) \/
  (exists p rest, s = p ++ sep ++ rest /\
     contains sep (p ++ removelast sep) = false /\
     split sep s = p :: split sep rest).
Proof.
  intros Hsep. induction s as [|c s IH].
  - left. split; [|reflexivity]. apply contains_short.
    destruct sep; [congruence|simpl; lia].
  - destruct (startswith sep (c :: s)) eqn:Hs.
    + right. exists [], (skipn (length sep) (c :: s)).
      apply startswith_inv in Hs.
      assert (Hrl : contains sep ([] ++ removelast sep) = false).
      { apply contains_short. simpl. rewrite removelast_length.
        destruct sep; [congruence|simpl; lia]. }
      split; [exact Hs|]. split; [exact Hrl|].
      rewrite Hs at 1. change (sep ++ skipn (length sep) (c :: s))
        with ([] ++ sep ++ skipn (length sep) (c :: s)).
      apply split_app_sep; assumption.
    + destruct IH as [[Hc Hsp]|(p & rest & -> & Hc & Hsp)].
      * left. split.
        -- rewrite contains_cons, Hs, Hc. reflexivity.
        -- apply split_absent; [exact Hsep|].
           rewrite contains_cons, Hs, Hc. reflexivity.
      * right. exists (c :: p), rest.
        assert (Hc' : contains sep ((c :: p) ++ removelast sep) = false).
        { simpl app. rewrite contains_cons, Hc, orb_false_r.
          destruct (startswith sep (c :: p ++ removelast sep)) eqn:E; [|reflexivity].
          change (c :: p ++ sep ++ rest) with ((c :: p) ++ sep ++ rest) in Hs.
          rewrite (app_removelast_last 0%N Hsep) in Hs at 2.
          rewrite <- app_assoc, app_assoc in Hs.
          change ((c :: p) ++ removelast sep) with (c :: p ++ removelast sep) in Hs.
          rewrite startswith_app_true in Hs by exact E. discriminate. }
        split; [reflexivity|]. split; [exact Hc'|].
        apply (split_app_sep sep (c :: p) rest); assumption.
Qed.

Lemma splits_on_split (sep s : str) :
  sep <> [] -> splits_on sep s (split sep s).
Proof.
  intros Hsep. remember (length s) as n eqn:Hn.
  revert s Hn. induction n as [n IH] using lt_wf_ind. intros s Hn.
  destruct (split_cases sep s Hsep) as [[Hc Hsp]|(p & rest & -> & Hc & Hsp)].
  - rewrite Hsp. now constructor.
  - rewrite Hsp. constructor; [exact Hc|].
    apply (IH (length rest)); [|reflexivity].
    subst n. rewrite !length_app. destruct sep; [congruence|simpl; lia].
Qed.

(** The wording determines the pieces. *)
Lemma splits_on_unique (sep s : str) (pieces : list str) :
  sep <> [] -> splits_on sep s pieces -> pieces = split sep s.
Proof.
  intros Hsep H. induction H as [p Hc|p rest pieces Hc _ IH].
  - symmetry. now apply split_absent.
  - rewrite split_app_sep by assumption. now f_equal.
Qed.

(** ** Trimming *)

Lemma lstrip_spaces (s : str) : forallb isspace s = true -> lstrip s = [].
Proof.
  induction s as [|c s IH]; simpl; [reflexivity|].
  intros H. apply andb_true_iff in H as [-> H]. now apply IH.
Qed.

Lemma lstrip_suffix (s : str) :
  exists pre, s = pre ++ lstrip s /\ forallb isspace pre = true.
Proof.
  induction s as [|c s (pre & IH1 & IH2)]; simpl.
  - exists []. now split.
  - destruct (isspace c) eqn:E.
    + exists (c :: pre). simpl. rewrite E, IH2. split; [now f_equal|reflexivity].
    + exists []. now split.
Qed.

Lemma lstrip_head (s : str) (c : char) (r : str) :
  lstrip s = c :: r -> isspace c = false.
Proof.
  induction s as [|x s IH]; simpl; [discriminate|].
  destruct (isspace x) eqn:E; [exact IH|]. intros H. now injection H as <- _.
Qed.

Lemma lstrip_fixed (s : str) :
  match s with [] => True | c :: _ => isspace c = false end -> lstrip s = s.
Proof. destruct s as [|c s]; simpl; [reflexivity|]. now intros ->. Qed.

Lemma lstrip_idem (s : str) : lstrip (lstrip s) = lstrip s.
Proof.
  apply lstrip_fixed. destruct (lstrip s) as [|c r] eqn:E; [exact I|].
  now apply lstrip_head in E.
Qed.

Lemma in_lstrip (x : char) (s : str) : In x (lstrip s) -> In x s.
Proof.
  destruct (lstrip_suffix s) as (pre & E & _). intros H.
  rewrite E. apply in_or_app. now right.
Qed.

Lemma in_strip (x : char) (s : str) : In x (strip s) -> In x s.
Proof.
  unfold strip, rstrip. intros H. apply in_rev in H.
  apply in_lstrip in H. apply in_rev in H. now apply in_lstrip in H.
Qed.

Lemma strip_spaces (s : str) : forallb isspace s = true -> strip s = [].
Proof. intros H. unfold strip. now rewrite lstrip_spaces. Qed.

(** A trimmed text begins and ends with a character that is not whitespace. *)
Lemma strip_ends (s : str) :
  strip s <> [] ->
  isspace (hd 0%N (strip s)) = false /\ isspace (List.last (strip s) 0%N) = false.
Proof.
  unfold strip, rstrip. intros Hne.
  destruct (lstrip (rev (lstrip s))) as [|c r] eqn:E; [now destruct Hne|].
  pose proof (lstrip_head _ _ _ E) as Hc.
  destruct (lstrip_suffix (rev (lstrip s))) as (pre & Hpre & _).
  rewrite E in Hpre. split.
  - (* the first character is the first of [lstrip s] *)
    assert (Hrev : lstrip s = rev (c :: r) ++ rev pre).
    { rewrite <- rev_app_distr, <- Hpre. now rewrite rev_involutive. }
    destruct (rev (c :: r)) as [|y l] eqn:Ey.
    { apply (f_equal (@length _)) in Ey. rewrite length_rev in Ey. discriminate. }
    simpl. simpl in Hrev. now apply lstrip_head in Hrev.
  - simpl rev. rewrite last_last. exact Hc.
Qed.

Lemma strip_fixed (s : str) :
  s <> [] -> isspace (hd 0%N s) = false -> isspace (List.last s 0%N) = false ->
  strip s = s.
Proof.
  intros Hne Hh Hl. unfold strip, rstrip.
  rewrite (lstrip_fixed s) by (destruct s; [exact I|exact Hh]).
  rewrite lstrip_fixed; [apply rev_involutive|].
  destruct (rev s) as [|c r] eqn:E; [exact I|].
  assert (Hs : s = rev r ++ [c]).
  { rewrite <- (rev_involutive s), E. reflexivity. }
  rewrite Hs, last_last in Hl. exact Hl.
Qed.

Lemma strip_idem (s : str) : strip (strip s) = strip s.
Proof.
  destruct (strip s) as [|c r] eqn:E; [reflexivity|].
  rewrite <- E. apply strip_fixed; [rewrite E; discriminate| |];
    apply strip_ends; rewrite E; discriminate.
Qed.

(** ** The loops of the extractor *)

Lemma clean_lines_spec (lines acc : list str) :
  OCRProcessor.clean_lines lines acc = acc ++ kept_stripped lines.
Proof.
  revert acc. induction lines as [|l lines IH]; intros acc; simpl.
  - now rewrite app_nil_r.
  - unfold kept_stripped. simpl. destruct (truthy (strip l)).
    + rewrite IH, <- app_assoc. reflexivity.
    + apply IH.
Qed.

Lemma squeeze_cons_keep (c : char) (s : str) :
  (c =? LF)%N && startswith [LF; LF] s = false ->
  squeeze_newlines (c :: s) = c :: squeeze_newlines s.
Proof. intros H. cbn [squeeze_newlines]. now rewrite H. Qed.

Lemma squeeze_cons_drop (s : str) :
  squeeze_newlines (LF :: LF :: LF :: s) = squeeze_newlines (LF :: LF :: s).
Proof.
  cbn [squeeze_newlines startswith]. rewrite !N.eqb_refl. reflexivity.
Qed.

Lemma startswith_lf2_other (x : char) (u : str) :
  x <> LF -> startswith [LF; LF] (x :: u) = false.
Proof.
  intros Hx. cbn [startswith].
  replace (LF =? x)%N with false; [reflexivity|].
  symmetry. apply N.eqb_neq. congruence.
Qed.

Lemma squeeze_lf_run (k : nat) (x : char) (u : str) :
  x <> LF ->
  squeeze_newlines (repeat LF k ++ x :: u)
  = repeat LF (Nat.min k 2) ++ x :: squeeze_newlines u.
Proof.
  intros Hx. assert (Hxb : (x =? LF)%N = false) by now apply N.eqb_neq.
  induction k as [|k IH].
  - cbn [repeat app Nat.min]. apply squeeze_cons_keep. now rewrite Hxb.
  - destruct k as [|[|k]].
    + cbn [repeat app Nat.min]. rewrite squeeze_cons_keep.
      * f_equal. apply squeeze_cons_keep. now rewrite Hxb.
      * rewrite startswith_lf2_other by exact Hx. apply andb_false_r.
    + cbn [repeat app Nat.min]. rewrite squeeze_cons_keep.
      * f_equal. rewrite squeeze_cons_keep.
        -- f_equal. apply squeeze_cons_keep. now rewrite Hxb.
        -- rewrite startswith_lf2_other by exact Hx. apply andb_false_r.
      * cbn [startswith]. rewrite N.eqb_refl.
        replace (LF =? x)%N with false; [reflexivity|].
        symmetry. apply N.eqb_neq. congruence.
    + change (repeat LF (S (S (S k))) ++ x :: u)
        with (LF :: LF :: LF :: repeat LF k ++ x :: u).
      rewrite squeeze_cons_drop.
      change (LF :: LF :: repeat LF k ++ x :: u)
        with (repeat LF (S (S k)) ++ x :: u).
      rewrite IH. do 2 f_equal. lia.
Qed.

Lemma repeat_snoc_app {A : Type} (a : A) (k : nat) (l : list A) :
  repeat a k ++ a :: l = repeat a (S k) ++ l.
Proof. induction k as [|k IH]; simpl; [reflexivity|]. now rewrite IH. Qed.

Lemma squeeze_drop (k : nat) (t : str) :
  squeeze_newlines (repeat LF (S (S (S k))) ++ t)
  = squeeze_newlines (repeat LF (S (S k)) ++ t).
Proof.
  change (repeat LF (S (S (S k))) ++ t) with (LF :: LF :: LF :: repeat LF k ++ t).
  apply squeeze_cons_drop.
Qed.

Lemma startswith_lf3 (t : str) :
  startswith [LF; LF; LF] t = true -> exists t', t = LF :: LF :: LF :: t'.
Proof. intros H. apply startswith_inv in H. exists (skipn 3 t). exact H. Qed.

(** One pass of the replacement does not change what the runs collapse to. *)
Lemma squeeze_replace_run (n : nat) :
  forall (t : str) (k : nat), length t <= n ->
    squeeze_newlines (repeat LF k ++ replace [LF; LF; LF] [LF; LF] t)
    = squeeze_newlines (repeat LF k ++ t).
Proof.
  induction n as [n IH] using lt_wf_ind. intros t k Hn.
  destruct t as [|c t]; [reflexivity|].
  destruct (startswith [LF; LF; LF] (c :: t)) eqn:Hs.
  - destruct (startswith_lf3 _ Hs) as (t' & E). rewrite E.
    change (LF :: LF :: LF :: t') with ([LF; LF; LF] ++ t').
    rewrite replace_at_old by discriminate.
    change ([LF; LF] ++ replace [LF; LF; LF] [LF; LF] t')
      with (LF :: LF :: replace [LF; LF; LF] [LF; LF] t').
    change ([LF; LF; LF] ++ t') with (LF :: LF :: LF :: t').
    rewrite !repeat_snoc_app.
    rewrite (IH (length t')); [|rewrite E in Hn; simpl in Hn; lia|lia].
    destruct k as [|k]; [now rewrite squeeze_drop|].
    rewrite <- repeat_snoc_app. symmetry.
    rewrite !repeat_snoc_app. apply squeeze_drop.
  - rewrite replace_no_match by (discriminate || exact Hs).
    destruct (N.eq_dec c LF) as [->|Hc].
    + rewrite !repeat_snoc_app. apply (IH (length t)); simpl in Hn; lia.
    + rewrite !squeeze_lf_run by exact Hc. do 2 f_equal.
      apply (IH (length t) ltac:(simpl in Hn; lia) t 0). lia.
Qed.

Lemma squeeze_replace (t : str) :
  squeeze_newlines (replace [LF; LF; LF] [LF; LF] t) = squeeze_newlines t.
Proof. apply (squeeze_replace_run (length t) t 0). lia. Qed.

Lemma squeeze_fixed (t : str) :
  contains [LF; LF; LF] t = false -> squeeze_newlines t = t.
Proof.
  induction t as [|c t IH]; [reflexivity|].
  rewrite contains_cons. intros H. apply orb_false_iff in H as [Hs Hc].
  cbn [squeeze_newlines]. rewrite IH by exact Hc.
  change (startswith [LF; LF; LF] (c :: t))
    with ((LF =? c)%N && startswith [LF; LF] t) in Hs.
  rewrite (N.eqb_sym c LF), Hs. reflexivity.
Qed.

Lemma replace_lf3_length (n : nat) :
  forall t : str, length t <= n ->
    length (replace [LF; LF; LF] [LF; LF] t) <= length t /\
    (contains [LF; LF; LF] t = true ->
     length (replace [LF; LF; LF] [LF; LF] t) < length t).
Proof.
  induction n as [n IH] using lt_wf_ind. intros t Hn.
  destruct t as [|c t]; [split; [simpl; lia|discriminate]|].
  destruct (startswith [LF; LF; LF] (c :: t)) eqn:Hs.
  - destruct (startswith_lf3 _ Hs) as (t' & E). rewrite E.
    change (LF :: LF :: LF :: t') with ([LF; LF; LF] ++ t').
    rewrite replace_at_old by discriminate.
    destruct (IH (length t')) with (t := t') as [Hle _];
      [rewrite E in Hn; simpl in Hn; lia|lia|].
    rewrite !length_app. cbn [length]. split; intros; lia.
  - rewrite replace_no_match by (discriminate || exact Hs).
    destruct (IH (length t)) with (t := t) as [Hle Hlt];
      [simpl in Hn; lia|lia|].
    rewrite contains_cons, Hs. cbn [length orb]. split; [lia|].
    intros H. apply Hlt in H. lia.
Qed.

(** The loop ends, and with every run of three or more newlines at two. *)
Lemma collapse_newlines_spec (fuel : nat) (t : str) :
  length t < fuel ->
  OCRProcessor.collapse_newlines fuel t = Ok (squeeze_newlines t).
Proof.
  revert t. induction fuel as [|fuel IH]; intros t Hlen; [lia|].
  cbn [OCRProcessor.collapse_newlines]. rewrite lit_lf3, lit_lf2.
  destruct (contains [LF; LF; LF] t) eqn:Hc.
  - rewrite IH.
    + now rewrite squeeze_replace.
    + destruct (replace_lf3_length (length t) t (Nat.le_refl _)) as [_ Hlt].
      specialize (Hlt Hc). lia.
  - now rewrite squeeze_fixed.
Qed.

(** ** Pieces and lines *)

Lemma contains_single (c : char) (s : str) :
  contains [c] s = false <-> ~ In c s.
Proof.
  induction s as [|x s IH].
  - simpl. tauto.
  - rewrite contains_cons. cbn [startswith In]. rewrite andb_true_r.
    rewrite orb_false_iff, IH, N.eqb_neq. split.
    + intros [H1 H2] [H|H]; [congruence|tauto].
    + intros H. split; [intros ->|]; tauto.
Qed.

Lemma splits_on_absent (sep s : str) (pieces : list str) :
  splits_on sep s pieces -> Forall (fun p => contains sep p = false) pieces.
Proof.
  induction 1 as [p Hc|p rest pieces Hc _ IH]; constructor; auto.
  now apply contains_app_false in Hc.
Qed.

Lemma splits_on_incl (sep s : str) (pieces : list str) :
  splits_on sep s pieces -> Forall (fun p => List.incl p s) pieces.
Proof.
  induction 1 as [p Hc|p rest pieces Hc _ IH]; constructor.
  - apply incl_refl.
  - constructor.
  - apply incl_appl, incl_refl.
  - eapply List.Forall_impl; [|exact IH]. intros q Hq.
    apply incl_appr, incl_appr. exact Hq.
Qed.

Lemma split_lines_no_lf (raw : str) :
  Forall (fun p => ~ In LF p) (split [LF] raw).
Proof.
  eapply List.Forall_impl; [|apply (splits_on_absent [LF] raw)].
  - intros p. apply contains_single.
  - apply splits_on_split. discriminate.
Qed.

Lemma kept_stripped_clean (pieces : list str) :
  Forall (fun p => ~ In LF p) pieces ->
  Forall clean_line (kept_stripped pieces).
Proof.
  unfold kept_stripped. induction 1 as [|p pieces Hp _ IH]; simpl; [constructor|].
  destruct (truthy (strip p)) eqn:E; [|exact IH].
  constructor; [|exact IH]. repeat split.
  - now apply truthy_true.
  - apply strip_idem.
  - intros H. apply Hp. now apply in_strip in H.
Qed.

Lemma kept_stripped_spaces (pieces : list str) :
  Forall (fun p => forallb isspace p = true) pieces -> kept_stripped pieces = [].
Proof.
  unfold kept_stripped. induction 1 as [|p pieces Hp _ IH]; simpl; [reflexivity|].
  rewrite strip_spaces by exact Hp. exact IH.
Qed.

Lemma cleaned_lines_clean (raw : str) :
  Forall clean_line (kept_stripped (split [LF] raw)).
Proof. apply kept_stripped_clean, split_lines_no_lf. Qed.

(** ** Texts without blank lines *)

Lemma tight_from_line (l s : str) (prev : bool) :
  l <> [] -> ~ In LF l -> tight_from prev (l ++ s) = tight_from false s.
Proof.
  revert prev. induction l as [|c l IH]; intros prev Hne Hlf; [congruence|].
  assert (Hc : (c =? LF)%N = false).
  { apply N.eqb_neq. intros ->. apply Hlf. now left. }
  simpl app. cbn [tight_from]. rewrite Hc.
  destruct l as [|d l]; [reflexivity|].
  apply IH; [discriminate|]. intros H. apply Hlf. now right.
Qed.

Lemma tight_from_lf (s : str) : tight_from false (LF :: s) = tight_from true s.
Proof. cbn [tight_from]. now rewrite N.eqb_refl. Qed.

Lemma tight_join (lines : list str) :
  lines <> [] -> Forall clean_line lines -> tight (join [LF] lines) = true.
Proof.
  unfold tight. intros Hne H. induction H as [|l lines (Hl & _ & Hlf) _ IH];
    [congruence|]. clear Hne.
  destruct lines as [|l' lines].
  - cbn [join]. rewrite <- (app_nil_r l). now rewrite tight_from_line.
  - change (join [LF] (l :: l' :: lines)) with (l ++ LF :: join [LF] (l' :: lines)).
    rewrite tight_from_line by assumption. rewrite tight_from_lf.
    apply IH. discriminate.
Qed.

Lemma tight_from_nonempty (s : str) :
  tight_from true s = true -> exists c r, s = c :: r /\ c <> LF.
Proof.
  destruct s as [|c r]; [discriminate|]. cbn [tight_from].
  destruct (c =? LF)%N eqn:E; [discriminate|]. intros _.
  exists c, r. split; [reflexivity|]. now apply N.eqb_neq.
Qed.

(** A tight text followed by a newline still holds no blank line. *)
Lemma tight_app_lf (s : str) (prev : bool) :
  tight_from prev s = true -> contains [LF; LF] (s ++ [LF]) = false.
Proof.
  revert prev. induction s as [|c s IH]; intros prev H; [reflexivity|].
  simpl app. rewrite contains_cons. cbn [tight_from] in H.
  destruct (c =? LF)%N eqn:E.
  - apply andb_true_iff in H as [_ H].
    destruct (tight_from_nonempty _ H) as (d & r & -> & Hd).
    rewrite (IH true H). cbn [app startswith].
    replace (LF =? d)%N with false; [now rewrite andb_false_r|].
    symmetry. apply N.eqb_neq. congruence.
  - rewrite (IH false H). cbn [startswith]. rewrite N.eqb_sym, E. reflexivity.
Qed.

Lemma tight_no_blank_line (s : str) :
  tight s = true -> contains [LF; LF] s = false.
Proof.
  intros H. apply (contains_app_false _ s [LF]). now apply (tight_app_lf s true).
Qed.

Lemma startswith_shorter (a b s : str) :
  startswith (a ++ b) s = true -> startswith a s = true.
Proof.
  revert s. induction a as [|x a IH]; intros [|y s]; simpl; try congruence.
  intros H. apply andb_true_iff in H as [-> H]. simpl. now apply IH.
Qed.

Lemma contains_shorter (a b s : str) :
  contains a s = false -> contains (a ++ b) s = false.
Proof.
  induction s as [|c s IH]; intros H.
  - simpl in *. rewrite orb_false_r in *.
    destruct (startswith (a ++ b) []) eqn:E; [|reflexivity].
    apply startswith_shorter in E. congruence.
  - rewrite contains_cons in *. apply orb_false_iff in H as [Hs Hc].
    rewrite IH by exact Hc.
    destruct (startswith (a ++ b) (c :: s)) eqn:E; [|reflexivity].
    apply startswith_shorter in E. congruence.
Qed.

Lemma join_clean_no_blank_line (lines : list str) :
  Forall clean_line lines -> contains [LF; LF] (join [LF] lines) = false.
Proof.
  intros H. destruct lines as [|l lines]; [reflexivity|].
  apply tight_no_blank_line, tight_join; [discriminate|exact H].
Qed.

Lemma cleaned_no_blank_line (raw : str) :
  contains [LF; LF] (cleaned raw) = false.
Proof. apply join_clean_no_blank_line, cleaned_lines_clean. Qed.

(** Joining and splitting again gives the pieces back when no piece, even
    extended by the separator's beginning, holds the separator. *)
Lemma split_join (sep : str) (pieces : list str) :
  sep <> [] -> pieces <> [] ->
  Forall (fun p => contains sep (p ++ removelast sep) = false) pieces ->
  split sep (join sep pieces) = pieces.
Proof.
  intros Hsep Hne H. induction H as [|p pieces Hp _ IH]; [now elim Hne|]. clear Hne.
  destruct pieces as [|q pieces].
  - cbn [join]. apply split_absent; [exact Hsep|].
    now apply contains_app_false in Hp.
  - change (join sep (p :: q :: pieces)) with (p ++ sep ++ join sep (q :: pieces)).
    rewrite split_app_sep by assumption. f_equal. apply IH. discriminate.
Qed.

(** ** The text normalization of the extractor *)

Lemma clean_text_cleaned (raw : str) :
  OCRProcessor._clean_text raw = Ok (cleaned raw).
Proof.
  unfold OCRProcessor._clean_text. destruct raw as [|c raw]; [reflexivity|].
  cbn [truthy negb]. rewrite lit_lf, clean_lines_spec. cbn [app].
  rewrite collapse_newlines_spec by lia. f_equal.
  apply squeeze_fixed.
  apply (contains_shorter [LF; LF] [LF]), cleaned_no_blank_line.
Qed.

Lemma cleaned_spaces (raw : str) :
  forallb isspace raw = true -> cleaned raw = [].
Proof.
  intros H. unfold cleaned. rewrite kept_stripped_spaces; [reflexivity|].
  eapply List.Forall_impl; [|apply (splits_on_incl [LF] raw), splits_on_split; discriminate].
  intros p Hp. apply forallb_forall. intros x Hx.
  rewrite forallb_forall in H. apply H, Hp, Hx.
Qed.

Lemma cleaned_tight (raw : str) : cleaned raw <> [] -> tight (cleaned raw) = true.
Proof.
  intros H. apply tight_join; [|apply cleaned_lines_clean].
  intros E. apply H. unfold cleaned. now rewrite E.
Qed.

Lemma list_last_app {A : Type} (l1 l2 : list A) (d : A) :
  l2 <> [] -> List.last (l1 ++ l2) d = List.last l2 d.
Proof.
  intros H. induction l1 as [|x l1 IH]; [reflexivity|].
  simpl app. destruct (l1 ++ l2) eqn:E.
  - apply app_eq_nil in E as [_ E]. congruence.
  - exact IH.
Qed.

(** The cleaned text has nothing left to trim. *)
Lemma strip_cleaned (raw : str) : strip (cleaned raw) = cleaned raw.
Proof.
  unfold cleaned. pose proof (cleaned_lines_clean raw) as H.
  destruct (kept_stripped (split [LF] raw)) as [|l lines]; [reflexivity|].
  assert (Hends : forall ls : list str, ls <> [] -> Forall clean_line ls ->
            join [LF] ls <> [] /\
            isspace (hd 0%N (join [LF] ls)) = false /\
            isspace (List.last (join [LF] ls) 0%N) = false).
  { intros ls Hne Hall. induction Hall as [|a ls (Ha & Hs & _) _ IH]; [congruence|].
    assert (Hsa : strip a <> []) by now rewrite Hs.
    destruct (strip_ends a Hsa) as [Hh Hl]. rewrite Hs in Hh, Hl.
    destruct ls as [|b ls]; [cbn [join]; now repeat split|].
    change (join [LF] (a :: b :: ls)) with (a ++ LF :: join [LF] (b :: ls)).
    destruct (IH ltac:(discriminate)) as (Hj & _ & Hjl).
    repeat split.
    - destruct a; [congruence|discriminate].
    - destruct a; [congruence|exact Hh].
    - rewrite list_last_app by discriminate.
      destruct (join [LF] (b :: ls)) as [|x r] eqn:E; [congruence|].
      exact Hjl. }
  destruct (Hends (l :: lines) ltac:(discriminate) H) as (H1 & H2 & H3).
  now apply strip_fixed.
Qed.

(** ** Page blocks *)

Lemma str_of_nat_digits (n : nat) : forallb is_digit (str_of_nat n) = true.
Proof.
  unfold str_of_nat. generalize (Nat.to_uint n) as d.
  induction d as [|d IH|d IH|d IH|d IH|d IH|d IH|d IH|d IH|d IH|d IH];
    [reflexivity|..]; exact IH.
Qed.

Lemma str_of_nat_no_lf (n : nat) : ~ In LF (str_of_nat n).
Proof.
  intros H. pose proof (str_of_nat_digits n) as Hd.
  rewrite forallb_forall in Hd. specialize (Hd _ H). discriminate.
Qed.

Lemma page_block_tight (n : nat) (t : str) :
  tight t = true -> tight (OCRProcessor.page_block n t) = true.
Proof.
  intros H. unfold tight, OCRProcessor.page_block.
  change (lit " ---\n") with ([32; 45; 45; 45]%N ++ [LF]).
  rewrite <- (app_assoc _ [LF] t), !app_assoc, <- (app_assoc _ [LF] t).
  rewrite tight_from_line.
  - cbn [app]. rewrite tight_from_lf. exact H.
  - destruct (lit "--- Page ") eqn:E; discriminate.
  - intros Hin. apply in_app_or in Hin as [Hin|Hin].
    + apply in_app_or in Hin as [Hin|Hin].
      * revert Hin. vm_compute. intuition discriminate.
      * now apply str_of_nat_no_lf in Hin.
    + revert Hin. vm_compute. intuition discriminate.
Qed.

Lemma extract_cleaned (raw : str) :
  OCRProcessor._extract_text_from_image raw = Ok (cleaned raw).
Proof. apply clean_text_cleaned. Qed.

(** The loop over the pages appends the blocks of the non-blank ones. *)
Lemma process_pages_spec (images : list OCRProcessor.PageImage) :
  forall (i : nat) (acc : list str),
    OCRProcessor.process_pages i images acc
    = Ok (acc ++ page_blocks
            (List.filter (fun it => truthy (strip (snd it)))
               (combine (seq (S i) (length images)) (List.map cleaned images)))).
Proof.
  induction images as [|raw images IH]; intros i acc.
  - simpl. now rewrite app_nil_r.
  - cbn [OCRProcessor.process_pages]. rewrite extract_cleaned. cbn [bind].
    cbn [length seq List.map combine List.filter snd].
    destruct (truthy (strip (cleaned raw))).
    + rewrite IH, <- app_assoc, Nat.add_1_r. reflexivity.
    + apply IH.
Qed.

Lemma process_pdf_spec (first : OCRProcessor.PageImage)
    (others : list OCRProcessor.PageImage) :
  OCRProcessor._process_pdf (first :: others)
  = Ok (join [LF; LF] (page_blocks (nonblank_pages (first :: others)))).
Proof.
  unfold OCRProcessor._process_pdf. rewrite process_pages_spec. reflexivity.
Qed.

Lemma nonblank_pages_tight (images : list OCRProcessor.PageImage) :
  Forall (fun b => tight b = true) (page_blocks (nonblank_pages images)).
Proof.
  unfold page_blocks, nonblank_pages. apply List.Forall_forall. intros b Hb.
  apply in_map_iff in Hb as ((n & t) & <- & Hin).
  apply filter_In in Hin as [Hin Ht]. cbn [fst snd] in *.
  apply in_combine_r in Hin. apply in_map_iff in Hin as (raw & <- & _).
  apply page_block_tight, cleaned_tight.
  rewrite strip_cleaned in Ht. now apply truthy_true.
Qed.



Lemma process_pages_blank (images : list OCRProcessor.PageImage) :
  Forall (fun raw => OCRProcessor._extract_text_from_image raw = Ok []) images ->
  forall (i : nat) (acc : list str),
    OCRProcessor.process_pages i images acc = Ok acc.
Proof.
  induction 1 as [|raw images Hraw _ IH]; intros i acc; [reflexivity|].
  cbn [OCRProcessor.process_pages]. rewrite Hraw. cbn [bind]. apply IH.
Qed.

(** * The extraction pipeline *)

(** C5: the extractor's normalization trims every line of the raw
    recognition result, drops the lines that trimming empties, joins the
    rest with single newlines and leaves no run of three or more newlines;
    and a raw result without any visible character gives the empty string,
    not an error. *)
Theorem clean_text_normalizes (raw : str) :
  (exists out,
     OCRProcessor._clean_text raw = Ok out /\ spec_clean_text raw out) /\
  (forallb isspace raw = true ->
   OCRProcessor._extract_text_from_image raw = Ok []).
Proof.
  split.
  - exists (cleaned raw). split; [apply clean_text_cleaned|].
    exists (split [LF] raw). split; [apply splits_on_split; discriminate|].
    symmetry. apply squeeze_fixed.
    apply (contains_shorter [LF; LF] [LF]), cleaned_no_blank_line.
  - intros H. rewrite extract_cleaned. f_equal. now apply cleaned_spaces.
Qed.

Lemma clean_text_normalizes_witness :
  forallb isspace (lit " \n\t") = true /\
  OCRProcessor._extract_text_from_image (lit " \n\t") = Ok [].
Proof.
  split; [reflexivity|].
  apply (proj2 (clean_text_normalizes (lit " \n\t"))). reflexivity.
Defined.

(** C9: the cleaned text of a page is made of non-empty trimmed lines, so
    it holds no two newlines in a row and the loop that collapses runs of
    newlines returns it as it is; the text of an image document therefore
    has no blank line, and the text of a PDF, cut at its blank lines, falls
    into exactly the page blocks that the orchestrator joined. *)
Theorem cleaned_text_has_no_blank_line :
  (forall raw : str, exists lines,
     OCRProcessor._clean_text raw = Ok (join [LF] lines) /\
     Forall clean_line lines /\
     split [LF] (join [LF] lines)
     = match lines with [] => [[]] | _ :: _ => lines end /\
     contains [LF; LF] (join [LF] lines) = false /\
     forall fuel, OCRProcessor.collapse_newlines (S fuel) (join [LF] lines)
                  = Ok (join [LF] lines)) /\
  (forall image : OCRProcessor.PageImage, exists t,
     OCRProcessor._process_image image = Ok t /\ contains [LF; LF] t = false) /\
  (forall (first : OCRProcessor.PageImage) (others : list OCRProcessor.PageImage),
     exists blocks,
       blocks = page_blocks (nonblank_pages (first :: others)) /\
       OCRProcessor._process_pdf (first :: others) = Ok (join [LF; LF] blocks) /\
       Forall (fun b => tight b = true) blocks /\
       split [LF; LF] (join [LF; LF] blocks)
       = match blocks with [] => [[]] | _ :: _ => blocks end).
Proof.
  split; [|split].
  - intros raw. exists (kept_stripped (split [LF] raw)).
    split; [apply clean_text_cleaned|].
    split; [apply cleaned_lines_clean|].
    split.
    { pose proof (cleaned_lines_clean raw) as Hl.
      destruct (kept_stripped (split [LF] raw)) as [|l ls]; [reflexivity|].
      apply split_join; [discriminate|discriminate|].
      eapply List.Forall_impl; [|exact Hl].
      intros a (_ & _ & Ha). cbn [removelast]. rewrite app_nil_r.
      now apply contains_single. }
    split; [apply cleaned_no_blank_line|].
    intros fuel. cbn [OCRProcessor.collapse_newlines]. rewrite lit_lf3.
    assert (H3 : contains [LF; LF; LF] (cleaned raw) = false)
      by apply (contains_shorter [LF; LF] [LF]), cleaned_no_blank_line.
    unfold cleaned in H3. now rewrite H3.
  - intros image. exists (cleaned image).
    split; [apply extract_cleaned|apply cleaned_no_blank_line].
  - intros first others.
    exists (page_blocks (nonblank_pages (first :: others))).
    split; [reflexivity|]. split; [apply process_pdf_spec|].
    pose proof (nonblank_pages_tight (first :: others)) as Ht.
    split; [exact Ht|].
    destruct (page_blocks (nonblank_pages (first :: others))) as [|b bs] eqn:E;
      [reflexivity|].
    apply split_join; [discriminate|discriminate|].
    eapply List.Forall_impl; [|exact Ht].
    intros a Ha. apply (tight_app_lf a true Ha).
Qed.



Example page_markers_skip_blank_page :
  OCRProcessor._process_pdf [lit "first page"; lit " \n"; lit "third"]
  = Ok (lit "--- Page 1 ---\nfirst page\n\n--- Page 3 ---\nthird").
Proof. vm_compute. reflexivity. Qed.

(** C1, as the code has it: when every page of a supported document with
    at least one page extracts to the empty text, [process_file] returns
    the empty string, and it is the guard of [upload_file] that fails, with
    status 400 and the no-readable-text detail. *)
Theorem blank_document_rejected_by_upload
    (doc : OCRProcessor.SourceDocument) (pages : list OCRProcessor.PageImage)
    (output_format : str) :
  document_pages doc = Some pages ->
  pages <> [] ->
  Forall (fun raw => OCRProcessor._extract_text_from_image raw = Ok []) pages ->
  In output_format Main.allowed_formats ->
  OCRProcessor.process_file doc = Ok [] /\
  Main.upload_file_extract doc output_format
  = Raise (HTTPException 400 Main.no_text_detail).
Proof.
  intros Hdoc Hne Hblank Hformat.
  assert (Hfile : OCRProcessor.process_file doc = Ok []).
  { unfold document_pages in Hdoc. unfold OCRProcessor.process_file.
    destruct (str_eqb (OCRProcessor.file_extension doc) (lit ".pdf")).
    - injection Hdoc as ->. destruct pages as [|first others]; [congruence|].
      unfold OCRProcessor._process_pdf.
      now rewrite (process_pages_blank _ Hblank).
    - destruct (existsb (str_eqb (OCRProcessor.file_extension doc))
                  OCRProcessor.image_extensions); [|discriminate].
      injection Hdoc as <-. now inversion Hblank. }
  split; [exact Hfile|].
  unfold Main.upload_file_extract. rewrite Hfile.
  replace (existsb (str_eqb output_format) Main.allowed_formats) with true.
  2:{ symmetry. apply existsb_exists. exists output_format.
      split; [exact Hformat|apply str_eqb_refl]. }
  replace (existsb (str_eqb (OCRProcessor.file_extension doc))
             Main.allowed_extensions) with true; [reflexivity|].
  symmetry. unfold document_pages in Hdoc.
  change Main.allowed_extensions
    with (lit ".pdf" :: OCRProcessor.image_extensions).
  cbn [existsb].
  destruct (str_eqb (OCRProcessor.file_extension doc) (lit ".pdf"));
    [reflexivity|].
  destruct (existsb (str_eqb (OCRProcessor.file_extension doc))
              OCRProcessor.image_extensions); [reflexivity|discriminate].
Qed.

Lemma blank_document_rejected_by_upload_witness :
  OCRProcessor.process_file blank_pdf = Ok [] /\
  Main.upload_file_extract blank_pdf (lit "json")
  = Raise (HTTPException 400 Main.no_text_detail).
Proof.
  apply (blank_document_rejected_by_upload blank_pdf [lit " \n"; []] (lit "json")).
  - reflexivity.
  - discriminate.
  - repeat constructor.
  - now left.
Defined.

(** C1 as stated fails: on a PDF whose two pages are blank,
    [process_file] returns a value and raises nothing. *)
Lemma blank_document_process_file_returns :
  document_pages blank_pdf = Some [lit " \n"; []] /\
  Forall (fun raw => OCRProcessor._extract_text_from_image raw = Ok [])
    [lit " \n"; []] /\
  OCRProcessor.process_file blank_pdf = Ok [] /\
  ~ exists e, OCRProcessor.process_file blank_pdf = Raise e.
Proof.
  split; [reflexivity|]. split; [repeat constructor|].
  split; [reflexivity|]. intros (e & H). discriminate H.
Qed.

(** * The structurer *)

(** ** Runs of the body under a fault schedule *)

Lemma computes_ret (faults : schedule) (t : str) {A : Type} (v : A) :
  computes faults t (ret v) v.
Proof. intros fr Ht. exists fr. split; [exact Ht|now left]. Qed.

Lemma computes_get (faults : schedule) (t : str) :
  computes faults t get_text t.
Proof.
  intros fr Ht. exists fr. split; [exact Ht|]. left.
  unfold get_text. now rewrite Ht.
Qed.

Lemma computes_call (faults : schedule) (t : str) {A : Type} (v : A) :
  computes faults t (call faults v) v.
Proof.
  intros fr Ht. exists {| text_var := text_var fr; calls := S (calls fr) |}.
  split; [exact Ht|]. unfold call. destruct (faults (calls fr)) as [e|] eqn:E.
  - right. exists e. cbn [calls]. rewrite Nat.sub_1_r. cbn [Nat.pred].
    split; [reflexivity|]. split; [discriminate|exact E].
  - now left.
Qed.

Lemma computes_bind (faults : schedule) (t : str) {A B : Type}
    (m : M A) (k : A -> M B) (a : A) (b : B) :
  computes faults t m a -> computes faults t (k a) b ->
  computes faults t (bindM m k) b.
Proof.
  intros Hm Hk fr Ht. destruct (Hm fr Ht) as (fr1 & Ht1 & [E|(e & E & He)]).
  - destruct (Hk fr1 Ht1) as (fr2 & Ht2 & H2). exists fr2. split; [exact Ht2|].
    unfold bindM. rewrite E. exact H2.
  - exists fr1. split; [exact Ht1|]. right. exists e.
    unfold bindM. rewrite E. now split.
Qed.

Lemma computes_strip_truthy (faults : schedule) (t : str) (pieces : list str) :
  computes faults t (strip_truthy faults pieces) (kept_stripped pieces).
Proof.
  induction pieces as [|p pieces IH]; [apply computes_ret|].
  cbn [strip_truthy]. eapply computes_bind; [apply computes_call|].
  unfold kept_stripped. cbn [List.map List.filter].
  destruct (truthy (strip p)); [|exact IH].
  eapply computes_bind; [apply computes_call|].
  eapply computes_bind; [exact IH|]. apply computes_ret.
Qed.

Lemma computes_split_sentences (faults : schedule) (t : str)
    (paras : list str) :
  forall acc : list str,
    computes faults t (split_sentences faults paras acc)
      (acc ++ flat_map (fun p => kept_stripped (re_split_terminators p)) paras).
Proof.
  induction paras as [|p paras IH]; intros acc.
  - cbn [split_sentences flat_map]. rewrite app_nil_r. apply computes_ret.
  - cbn [split_sentences flat_map]. eapply computes_bind; [apply computes_call|].
    eapply computes_bind; [apply computes_strip_truthy|].
    rewrite app_assoc. apply IH.
Qed.

(** The part of the body that follows the rebinding of [text]. *)
Lemma computes_parse_rest (faults : schedule) (text : str) :
  computes faults (normalized_text text)
    (t <- get_text ;;
     blocks <- call faults (split (lit "\n\n") t) ;;
     paragraphs <- strip_truthy faults blocks ;;
     sentences <- split_sentences faults paragraphs [] ;;
     words <- call faults (split_ws t) ;;
     has_marker <- call faults (contains (lit "--- Page") t) ;;
     page_count <- (if has_marker
                    then n <- call faults (count (lit "--- Page") t) ;; ret (n + 1)
                    else ret 1) ;;
     ret {| paragraphs := paragraphs; sentences := sentences;
            words := words; page_count := page_count |})
    (structured text).
Proof.
  eapply computes_bind; [apply computes_get|].
  eapply computes_bind; [apply computes_call|].
  eapply computes_bind; [apply computes_strip_truthy|].
  eapply computes_bind; [apply (computes_split_sentences _ _ _ [])|].
  eapply computes_bind; [apply computes_call|].
  eapply computes_bind; [apply computes_call|].
  unfold structured.
  destruct (contains (lit "--- Page") (normalized_text text)).
  - eapply computes_bind.
    + eapply computes_bind; [apply computes_call|apply computes_ret].
    + apply computes_ret.
  - eapply computes_bind; apply computes_ret.
Qed.

(** The rebinding: [text] holds the normalized text once the [if]/[elif]
    is through, and still the argument if a call of it raised. *)
Lemma normalize_newlines_run (faults : schedule) (text : str) (n : nat) :
  exists fr',
    (normalize_newlines faults {| text_var := text; calls := n |} = (Ok tt, fr') /\
     text_var fr' = normalized_text text) \/
    (exists e,
       normalize_newlines faults {| text_var := text; calls := n |} = (Raise e, fr') /\
       text_var fr' = text /\ calls fr' <> 0 /\ faults (calls fr' - 1) = Some e).
Proof.
  assert (Hraise : forall (k : nat) (e : exn), faults k = Some e ->
            text_var {| text_var := text; calls := S k |} = text /\
            calls {| text_var := text; calls := S k |} <> 0 /\
            faults (calls {| text_var := text; calls := S k |} - 1) = Some e).
  { intros k e E. cbn [text_var calls]. rewrite Nat.sub_1_r. cbn [Nat.pred].
    split; [reflexivity|]. split; [discriminate|exact E]. }
  unfold normalize_newlines, normalized_text, bindM, get_text, call, set_text.
  cbn [text_var calls].
  destruct (faults n) as [e|] eqn:E0.
  { eexists. right. exists e. split; [reflexivity|]. now apply Hraise. }
  cbn [text_var calls].
  destruct (contains (lit "\r\n") text); cbn [text_var calls].
  - destruct (faults (S n)) as [e|] eqn:E1.
    + eexists. right. exists e. split; [reflexivity|]. now apply Hraise.
    + eexists. left. split; reflexivity.
  - destruct (faults (S n)) as [e|] eqn:E1.
    { eexists. right. exists e. split; [reflexivity|]. now apply Hraise. }
    cbn [text_var calls].
    destruct (contains (lit "\r") text); cbn [text_var calls].
    + destruct (faults (S (S n))) as [e|] eqn:E2.
      * eexists. right. exists e. split; [reflexivity|]. now apply Hraise.
      * eexists. left. split; reflexivity.
    + eexists. left. split; reflexivity.
Qed.

(** Every run of the body: the dictionary of line 311, or a scheduled
    fault with [text] bound to the argument or to its normalization. *)
Lemma parse_body_run (faults : schedule) (text : str) :
  exists fr',
    parse_body faults {| text_var := text; calls := 0 |} = (Ok (structured text), fr') \/
    (exists e,
       parse_body faults {| text_var := text; calls := 0 |} = (Raise e, fr') /\
       (text_var fr' = text \/ text_var fr' = normalized_text text) /\
       calls fr' <> 0 /\ faults (calls fr' - 1) = Some e).
Proof.
  unfold parse_body.
  destruct (normalize_newlines_run faults text 0)
    as (fr1 & [[E1 Ht1]|(e & E1 & Ht1 & Hc1)]).
  - destruct (computes_parse_rest faults text fr1 Ht1)
      as (fr2 & Ht2 & [E2|(e & E2 & Hc2)]).
    + exists fr2. left. unfold bindM at 1. rewrite E1. exact E2.
    + exists fr2. right. exists e. unfold bindM at 1. rewrite E1.
      split; [exact E2|]. split; [now right|exact Hc2].
  - exists fr1. right. exists e. unfold bindM at 1. rewrite E1.
    split; [reflexivity|]. split; [now left|exact Hc1].
Qed.

Lemma parse_no_faults (text : str) :
  _parse_text_to_structured_data no_faults text = Ok (structured text).
Proof.
  unfold _parse_text_to_structured_data, try_except.
  destruct (parse_body_run no_faults text) as (fr' & [E|(e & E & _ & _ & He)]).
  - now rewrite E.
  - discriminate He.
Qed.

(** ** Runs of sentence terminators *)

Lemma re_split_from_true (s : str) :
  head_is_terminator s = false -> re_split_from true s = re_split_from false s.
Proof. destruct s as [|c s]; [reflexivity|]. cbn. now intros ->. Qed.

Lemma re_split_skip_run (run rest : str) :
  forallb is_terminator run = true -> head_is_terminator rest = false ->
  re_split_from true (run ++ rest) = re_split_from false rest.
Proof.
  intros Hrun Hrest. induction run as [|c run IH].
  - now apply re_split_from_true.
  - cbn [forallb] in Hrun. apply andb_true_iff in Hrun as [Hc Hrun].
    cbn [app re_split_from]. rewrite Hc. now apply IH.
Qed.

Lemma re_split_piece (p : str) (c : char) (s : str) :
  forallb (fun c => negb (is_terminator c)) p = true -> is_terminator c = true ->
  re_split_from false (p ++ c :: s) = p :: re_split_from true s.
Proof.
  intros Hp Hc. induction p as [|x p IH].
  - cbn [app re_split_from]. now rewrite Hc.
  - cbn [forallb] in Hp. apply andb_true_iff in Hp as [Hx Hp].
    apply negb_true_iff in Hx. cbn [app re_split_from]. rewrite Hx.
    rewrite IH by exact Hp. reflexivity.
Qed.

Lemma re_split_no_terminator (p : str) :
  forallb (fun c => negb (is_terminator c)) p = true ->
  re_split_from false p = [p].
Proof.
  induction p as [|x p IH]; [reflexivity|]. cbn [forallb]. intros Hp.
  apply andb_true_iff in Hp as [Hx Hp]. apply negb_true_iff in Hx.
  cbn [re_split_from]. rewrite Hx, IH by exact Hp. reflexivity.
Qed.

Lemma span_terminators (s : str) :
  exists run rest, s = run ++ rest /\ forallb is_terminator run = true /\
                   head_is_terminator rest = false.
Proof.
  induction s as [|c s (run & rest & -> & Hrun & Hrest)].
  - exists [], []. now repeat split.
  - destruct (is_terminator c) eqn:Hc.
    + exists (c :: run), rest. cbn [forallb]. rewrite Hc, Hrun. now repeat split.
    + exists [], (c :: run ++ rest). now repeat split.
Qed.

Lemma terminator_cases (s : str) :
  forallb (fun c => negb (is_terminator c)) s = true \/
  exists p run rest,
    s = p ++ run ++ rest /\
    forallb (fun c => negb (is_terminator c)) p = true /\
    run <> [] /\ forallb is_terminator run = true /\
    head_is_terminator rest = false.
Proof.
  induction s as [|c s IH]; [now left|].
  destruct (is_terminator c) eqn:Hc.
  - right. destruct (span_terminators s) as (run & rest & -> & Hrun & Hrest).
    exists [], (c :: run), rest. cbn [forallb]. rewrite Hc, Hrun.
    repeat split; [discriminate|exact Hrest].
  - destruct IH as [IH|(p & run & rest & -> & Hp & Hne & Hrun & Hrest)].
    + left. cbn [forallb]. now rewrite Hc, IH.
    + right. exists (c :: p), run, rest. cbn [forallb]. rewrite Hc, Hp.
      now repeat split.
Qed.

Lemma re_split_at_run (p run rest : str) :
  forallb (fun c => negb (is_terminator c)) p = true ->
  run <> [] -> forallb is_terminator run = true ->
  head_is_terminator rest = false ->
  re_split_terminators (p ++ run ++ rest) = p :: re_split_terminators rest.
Proof.
  intros Hp Hne Hrun Hrest. unfold re_split_terminators.
  destruct run as [|c run]; [congruence|].
  cbn [forallb] in Hrun. apply andb_true_iff in Hrun as [Hc Hrun].
  cbn [app]. rewrite re_split_piece by assumption.
  now rewrite re_split_skip_run.
Qed.

Lemma splits_on_runs_re_split (s : str) :
  splits_on_runs s (re_split_terminators s).
Proof.
  remember (length s) as n eqn:Hn. revert s Hn.
  induction n as [n IH] using lt_wf_ind. intros s Hn.
  destruct (terminator_cases s)
    as [Hs|(p & run & rest & -> & Hp & Hne & Hrun & Hrest)].
  - unfold re_split_terminators. rewrite re_split_no_terminator by exact Hs.
    now constructor.
  - rewrite re_split_at_run by assumption. constructor; try assumption.
    apply (IH (length rest)); [|reflexivity].
    subst n. rewrite !length_app. destruct run; [congruence|simpl; lia].
Qed.

Lemma splits_on_runs_unique (s : str) (pieces : list str) :
  splits_on_runs s pieces -> pieces = re_split_terminators s.
Proof.
  induction 1 as [p Hp|p run rest pieces Hp Hne Hrun Hrest _ IH].
  - symmetry. now apply re_split_no_terminator.
  - rewrite re_split_at_run by assumption. now f_equal.
Qed.

Lemma spec_sentences_flat_map (paras : list str) :
  spec_sentences paras
    (flat_map (fun p => kept_stripped (re_split_terminators p)) paras).
Proof.
  induction paras as [|p paras IH]; [constructor|].
  cbn [flat_map]. constructor; [apply splits_on_runs_re_split|exact IH].
Qed.

Lemma spec_sentences_unique (paras sents : list str) :
  spec_sentences paras sents ->
  sents = flat_map (fun p => kept_stripped (re_split_terminators p)) paras.
Proof.
  induction 1 as [|p paras pieces sents Hp _ IH]; [reflexivity|].
  cbn [flat_map]. rewrite <- (splits_on_runs_unique p pieces Hp). now f_equal.
Qed.

(** C3: without a fault the structurer returns, as paragraphs, the blocks
    between the blank lines of the text it normalized, trimmed and without
    the empty ones, in order, and as sentences, paragraph after paragraph,
    the pieces between runs of terminators, trimmed and without the empty
    ones; the two-paragraph example of the specification comes out as it
    says. *)
Theorem structurer_paragraphs_and_sentences :
  (forall text : str, exists sd,
     _parse_text_to_structured_data no_faults text = Ok sd /\
     spec_paragraphs (normalized_text text) (paragraphs sd) /\
     spec_sentences (paragraphs sd) (sentences sd)) /\
  (exists sd,
     _parse_text_to_structured_data no_faults
       (lit "Hello world. Foo bar!\n\nNext para? Yes.") = Ok sd /\
     sentences sd = [lit "Hello world"; lit "Foo bar"; lit "Next para"; lit "Yes"] /\
     paragraphs sd = [lit "Hello world. Foo bar!"; lit "Next para? Yes."]).
Proof.
  split.
  - intros text. exists (structured text). split; [apply parse_no_faults|].
    split.
    + exists (split [LF; LF] (normalized_text text)).
      split; [apply splits_on_split; discriminate|reflexivity].
    + apply spec_sentences_flat_map.
  - eexists. split; [vm_compute; reflexivity|]. split; reflexivity.
Qed.

Lemma replace_absent (old new s : str) :
  old <> [] -> contains old s = false -> replace old new s = s.
Proof.
  intros Hold. induction s as [|c s IH]; intros H; [now apply replace_nil|].
  rewrite contains_cons in H. apply orb_false_iff in H as [Hs Hc].
  rewrite replace_no_match by assumption. now rewrite IH.
Qed.

(** Without a CR LF pair in the text, the code normalizes as the
    specification says. *)
Lemma normalized_text_without_crlf (text : str) :
  contains [CR; LF] text = false ->
  normalized_text text = spec_normalized_text text.
Proof.
  intros H. unfold normalized_text, spec_normalized_text.
  change (lit "\r\n") with [CR; LF]. change (lit "\r") with [CR].
  change (lit "\n") with [LF]. rewrite H.
  rewrite (replace_absent [CR; LF]) by (discriminate || exact H).
  destruct (contains [CR] text) eqn:E; [reflexivity|].
  symmetry. apply replace_absent; [discriminate|exact E].
Qed.

(** C2, where the code departs from it: a text with both CR LF pairs and
    lone CRs keeps its lone CRs, since only the first branch of the
    [if]/[elif] runs; here two CRs in a row fail to separate paragraphs. *)
Theorem normalization_keeps_lone_cr_after_crlf :
  normalized_text (lit "one\r\n\r\ntwo\r\rthree") = lit "one\n\ntwo\r\rthree" /\
  spec_normalized_text (lit "one\r\n\r\ntwo\r\rthree") = lit "one\n\ntwo\n\nthree" /\
  In CR (normalized_text (lit "one\r\n\r\ntwo\r\rthree")) /\
  _parse_text_to_structured_data no_faults (lit "one\r\n\r\ntwo\r\rthree")
  = Ok {| paragraphs := [lit "one"; lit "two\r\rthree"];
          sentences := [lit "one"; lit "two\r\rthree"];
          words := [lit "one"; lit "two"; lit "three"];
          page_count := 1 |}.
Proof.
  split; [vm_compute; reflexivity|]. split; [vm_compute; reflexivity|].
  split; [|vm_compute; reflexivity].
  vm_compute. do 8 right. now left.
Qed.




(** * The line-oriented CSV encoder *)







(** * The dispatcher's CSV branch *)





(** * JSON: decoding what the encoder wrote *)

(** ** Strings *)






(** ** Integers *)










(** ** Layout *)










(** ** The two loops *)




(** ** Values *)



















(** ** Files written in text mode *)











(** ** The document the encoder builds *)







